(** * Paginated tag listing of a docker repository

    A shallow embedding of [src/docker/docker_image.go]: the single page
    fetch [MakeRepositoryTagsRequest] and the pagination loop of
    [GetRepositoryTags], with the properties of the tag lister proved
    about them.

    The registry transport ([makeRequest]), the JSON decoder, [url.Parse],
    [reference.Path] and the constant [tagsPath] are not part of the file;
    they are the variables of the section [Lister]. *)

From Stdlib Require Import ZArith Lia Ascii String DecimalString DecimalZ.
From stdpp Require Import base option list strings gmap.

Open Scope string_scope.
Open Scope list_scope.

(** ** Go values *)

(** A Go [[]string]: the nil slice is not the empty slice, and the loop of
    [GetRepositoryTags] tells them apart ([tags == nil]). *)
Inductive slice : Type :=
| nil_slice
| mk_slice (elems : list string).

Definition elems (s : slice) : list string :=
  match s with
  | nil_slice => []
  | mk_slice l => l
  end.

Definition len (s : slice) : nat := length (elems s).

Definition is_nil (s : slice) : bool :=
  match s with
  | nil_slice => true
  | mk_slice _ => false
  end.

(** [append(s, t...)]: with nothing to add the first slice comes back as it
    is (nil stays nil); otherwise the result is a slice that is not nil. *)
Definition append (s t : slice) : slice :=
  match elems t with
  | [] => s
  | _ :: _ => mk_slice (elems s ++ elems t)
  end.

(** The slice holding the elements [l], as a chain of [append]s starting
    from [var result []string] builds it. *)
Definition slice_of (l : list string) : slice :=
  match l with
  | [] => nil_slice
  | _ :: _ => mk_slice l
  end.

(** A Go [error] that is not nil, by where it was made.  The payload of the
    first three is the error of the callee, passed on as it came. *)
Inductive error : Type :=
| makeRequest_error (e : string)
| json_error (e : string)
| url_Error (e : string)
| errors_Errorf (msg : string).

(** The [%d] verb on an [int]. *)
Definition Sprintf_d (n : Z) : string := NilZero.string_of_int (Z.to_int n).

(** [errors.Errorf("Invalid status code returned when fetching tags list %d", code)] *)
Definition invalid_status_code (code : Z) : error :=
  errors_Errorf ("Invalid status code returned when fetching tags list " +:+ Sprintf_d code).

(** [errors.Errorf("Could not parse link header in response when fetching tags list")] *)
Definition link_header_error : error :=
  errors_Errorf "Could not parse link header in response when fetching tags list".

(** [fmt.Sprintf("%s?%s", a, b)] *)
Definition Sprintf_s_s (a b : string) : string := a +:+ "?" +:+ b.

(** [http.StatusOK] *)
Definition StatusOK : Z := 200.

(** What the lister reads of an [*http.Response]. *)
Record Response : Type := mkResponse {
  StatusCode : Z;
  Header : gmap string (list string);
  Body : string
}.

(** [(res.Header)["Link"]]: indexing the map, a missing key gives a slice of
    length 0. *)
Definition Header_index (h : gmap string (list string)) (key : string) : list string :=
  default [] (h !! key).

(** What the lister reads of a [*url.URL]. *)
Record URL : Type := mkURL {
  Path : string;
  RawQuery : string
}.

(** ** The regular expression [\A<(.+)>;(.+)\z] *)

Module nextLinkRegexp.

(** [.] : any character but a newline. *)
Definition dot (c : ascii) : bool := negb (Ascii.eqb c "010"%char).

Fixpoint dots (s : string) : bool :=
  match s with
  | EmptyString => true
  | String c s' => dot c && dots s'
  end.

(** [(.+)\z] *)
Definition meta_group (s : string) : option string :=
  match s with
  | EmptyString => None
  | String _ _ => if dots s then Some s else None
  end.

(** [>;(.+)\z] *)
Definition after_url (s : string) : option string :=
  match s with
  | String ">" (String ";" rest) => meta_group rest
  | _ => None
  end.

(** [(.+)>;(.+)\z]: the first group is greedy, so the longer first group
    is tried before the shorter one. *)
Fixpoint url_group (s : string) : option (string * string) :=
  match s with
  | EmptyString => None
  | String c s' =>
      if dot c then
        match url_group s' with
        | Some (u, m) => Some (String c u, m)
        | None =>
            match after_url s' with
            | Some m => Some (String c EmptyString, m)
            | None => None
            end
        end
      else None
  end.

(** [nextLinkRegexp.FindStringSubmatch(s)]: the whole match and the two
    groups, or [None] for Go's nil. *)
Definition FindStringSubmatch (s : string) : option (list string) :=
  match s with
  | String "<" s' =>
      match url_group s' with
      | Some (u, m) => Some [s; u; m]
      | None => None
      end
  | _ => None
  end.

(** The shape the expression describes: [<u>;m] with [u] and [m] not
    empty and free of newlines. *)
Definition shape (s u m : string) : Prop :=
  s = "<" +:+ u +:+ ">;" +:+ m /\ u <> "" /\ m <> "" /\ dots u = true /\ dots m = true.

End nextLinkRegexp.

(** [match[k]] on the slice [FindStringSubmatch] gave. *)
Definition index (m : list string) (k : nat) : string := default "" (m !! k).

(** ** The lister *)

(** What one call of [MakeRepositoryTagsRequest] gave, with the path it was
    asked for: an entry of the log of fetches. *)
Record Fetch : Type := mkFetch {
  fetch_path : string;
  fetch_tags : slice;
  fetch_links : list string;
  fetch_err : option error
}.

(** How an iteration of the loop ends: by [return], or by falling through
    to the loop condition with the variables [done], [path] and [result]. *)
Inductive flow : Type :=
| Return (tags : slice) (err : option error)
| Next (done : bool) (path : string) (result : slice).

(** A finished call of [GetRepositoryTags]: the two values returned, the
    registry as the call left it, and the fetches made, first one first. *)
Record Run (World : Type) : Type := mkRun {
  ret_tags : slice;
  ret_err : option error;
  ret_world : World;
  ret_fetches : list Fetch
}.
Arguments mkRun {World}.
Arguments ret_tags {World}.
Arguments ret_err {World}.
Arguments ret_world {World}.
Arguments ret_fetches {World}.

Section Lister.

(** The state of the registry and of the connection to it. *)
Context {World : Type}.

(** [i.src.c.makeRequest(ctx, method, path, nil, nil)] *)
Variable makeRequest : World -> string -> string -> World * (Response + string).

(** [json.NewDecoder(body).Decode(tags)] on a fresh [tagsRes]: the field
    [Tags] afterwards, or the decoder's error. *)
Variable json_Decode : string -> slice + string.

(** [url.Parse] *)
Variable url_Parse : string -> URL + string.

(** [fmt.Sprintf(tagsPath, name)] *)
Variable tagsPath : string -> string.

(** [MakeRepositoryTagsRequest(i, path)].  The deferred [res.Body.Close()]
    is left out: nothing the function returns depends on it. *)
Definition MakeRepositoryTagsRequest (w : World) (path : string)
  : World * (slice * list string * option error) :=
  match makeRequest w "GET" path with
  | (w', inr err) => (w', (nil_slice, [], Some (makeRequest_error err)))
  | (w', inl res) =>
      if negb (StatusCode res =? StatusOK)%Z then
        (w', (nil_slice, [], Some (invalid_status_code (StatusCode res))))
      else
        match json_Decode (Body res) with
        | inr err => (w', (nil_slice, [], Some (json_error err)))
        | inl tags =>
            let linkValue := Header_index (Header res) "Link" in
            (w', (tags, linkValue, None))
        end
  end.

(** The body of the loop [for !done { ... }]. *)
Definition loop_body (w : World) (path : string) (result : slice)
  : World * Fetch * flow :=
  let '(w', (tags, linkValue, err)) := MakeRepositoryTagsRequest w path in
  let f := mkFetch path tags linkValue err in
  if is_nil tags then (w', f, Return nil_slice err)
  else
    let result := append result tags in
    match linkValue with
    | [] => (w', f, Next true path result)
    | link0 :: _ =>
        match nextLinkRegexp.FindStringSubmatch link0 with
        | Some m =>
            match url_Parse (index m 1) with
            | inr uerr => (w', f, Return nil_slice (Some (url_Error uerr)))
            | inl u => (w', f, Next false (Sprintf_s_s (Path u) (RawQuery u)) result)
            end
        | None => (w', f, Return nil_slice (Some link_header_error))
        end
    end.

(** The loop, and the [return result, nil] after it.  [fuel] bounds the
    number of iterations; [None] when it does not suffice. *)
Fixpoint loop (fuel : nat) (w : World) (done : bool) (path : string)
    (result : slice) (log : list Fetch) : option (Run World) :=
  if done then Some (mkRun result None w log)
  else
    match fuel with
    | O => None
    | S fuel' =>
        match loop_body w path result with
        | (w', f, Return tags err) => Some (mkRun tags err w' (log ++ [f]))
        | (w', f, Next done' path' result') =>
            loop fuel' w' done' path' result' (log ++ [f])
        end
    end.

(** [i.GetRepositoryTags()], where [name] is
    [reference.Path(i.src.ref.ref)]. *)
Definition GetRepositoryTags (fuel : nat) (w : World) (name : string)
  : option (Run World) :=
  loop fuel w false (tagsPath name) nil_slice [].

(** *** Pages, as the registry serves them *)

(** In the state [w] the registry answers [GET path] with a page: status
    200, a body that decodes to the tag array [tags], and the values
    [links] under the header [Link].  [w'] is the state afterwards. *)
Definition page (w : World) (path : string) (tags links : list string)
    (w' : World) : Prop :=
  exists res,
    makeRequest w "GET" path = (w', inl res) /\
    StatusCode res = StatusOK /\
    json_Decode (Body res) = inl (mk_slice tags) /\
    Header_index (Header res) "Link" = links.

(** The header value [link] has the expected shape, its URL parses, and
    the path made of it is [path]. *)
Definition points_to (link path : string) : Prop :=
  exists m u,
    nextLinkRegexp.FindStringSubmatch link = Some m /\
    url_Parse (index m 1) = inl u /\
    path = Sprintf_s_s (Path u) (RawQuery u).

(** [pages w path ps w' path']: from the state [w] and the path [path] the
    registry serves the pages [ps] one after the other, each with a
    continuation header that points to the next; after the last of them
    the state is [w'] and its header points to [path']. *)
Inductive pages : World -> string -> list (list string) -> World -> string -> Prop :=
| pages_nil w path : pages w path [] w path
| pages_cons w path tags link links w1 path1 ps w' path' :
    page w path tags (link :: links) w1 ->
    points_to link path1 ->
    pages w1 path1 ps w' path' ->
    pages w path (tags :: ps) w' path'.

(** The fetch [f] was followed by another one, at [path']: its tags were
    not nil and its first header value points to [path']. *)
Definition continued (f : Fetch) (path' : string) : Prop :=
  fetch_tags f <> nil_slice /\
  fetch_err f = None /\
  exists link links, fetch_links f = link :: links /\ points_to link path'.

(** Every fetch of the log but the last was continued by the next one. *)
Fixpoint linked (fs : list Fetch) : Prop :=
  match fs with
  | f :: ((f' :: _) as fs') => continued f (fetch_path f') /\ linked fs'
  | _ => True
  end.

(** [fails w path w' e]: in the state [w] the fetch of [path], or the
    continuation header of the page fetched, fails with the error [e]:
    the transport fails, the status is not 200, the body does not decode,
    the first header value of a page does not match, or its URL does not
    parse. *)
Inductive fails (w : World) (path : string) : World -> error -> Prop :=
| fails_transport w' err :
    makeRequest w "GET" path = (w', inr err) ->
    fails w path w' (makeRequest_error err)
| fails_status w' res :
    makeRequest w "GET" path = (w', inl res) ->
    StatusCode res <> StatusOK ->
    fails w path w' (invalid_status_code (StatusCode res))
| fails_decode w' res err :
    makeRequest w "GET" path = (w', inl res) ->
    StatusCode res = StatusOK ->
    json_Decode (Body res) = inr err ->
    fails w path w' (json_error err)
| fails_link w' tags link links :
    page w path tags (link :: links) w' ->
    nextLinkRegexp.FindStringSubmatch link = None ->
    fails w path w' link_header_error
| fails_url w' tags link links m uerr :
    page w path tags (link :: links) w' ->
    nextLinkRegexp.FindStringSubmatch link = Some m ->
    url_Parse (index m 1) = inr uerr ->
    fails w path w' (url_Error uerr).

End Lister.

(** What a caller sees of a run, and the paths it asked for. *)
Definition outcome {World : Type} (r : Run World) : slice * option error * World * list string :=
  (ret_tags r, ret_err r, ret_world r, fetch_path <$> ret_fetches r).

(** Two responses that differ at most in the header values after the first
    one under [Link]. *)
Definition same_but_later_links (r1 r2 : Response) : Prop :=
  StatusCode r1 = StatusCode r2 /\
  Body r1 = Body r2 /\
  head (Header_index (Header r1) "Link") = head (Header_index (Header r2) "Link").

(** Two registries that answer alike but for such header values. *)
Definition same_but_later_links_registry {World : Type}
    (makeRequest1 makeRequest2 : World -> string -> string -> World * (Response + string)) : Prop :=
  forall w method path,
    match makeRequest1 w method path, makeRequest2 w method path with
    | (w1, inl r1), (w2, inl r2) => w1 = w2 /\ same_but_later_links r1 r2
    | (w1, inr e1), (w2, inr e2) => w1 = w2 /\ e1 = e2
    | _, _ => False
    end.

(** ** A registry to run the lister on

    Stand-ins for the collaborators, for the worked examples: a registry
    that answers by path from a table and keeps the list of the requests it
    got, a decoder that knows a few bodies, and a parser for URLs that are
    a plain path with an optional query. *)
Module Example.

Definition dquote : string := String "034"%char EmptyString.

Definition quoted (s : string) : string := dquote +:+ s +:+ dquote.

(** The registry's state: the requests received, as method and path. *)
Definition World : Type := list (string * string).

Abbreviation table := (gmap string (Response + string)).

Definition not_found : Response := mkResponse 404 ∅ "".

Definition makeRequest (t : table) (w : World) (method path : string)
  : World * (Response + string) :=
  (w ++ [(method, path)], default (inl not_found) (t !! path)).

(** [{"Tags":["a","b"]}] *)
Definition body_a_b : string :=
  "{" +:+ quoted "Tags" +:+ ":[" +:+ quoted "a" +:+ "," +:+ quoted "b" +:+ "]}".

(** [{"Tags":["a"]}] *)
Definition body_a : string := "{" +:+ quoted "Tags" +:+ ":[" +:+ quoted "a" +:+ "]}".

(** [{"Tags":["c"]}] *)
Definition body_c : string := "{" +:+ quoted "Tags" +:+ ":[" +:+ quoted "c" +:+ "]}".

(** [{"Tags":[]}] *)
Definition body_empty : string := "{" +:+ quoted "Tags" +:+ ":[]}".

(** [{}] *)
Definition body_no_tags : string := "{}".

Definition json_Decode (body : string) : slice + string :=
  if decide (body = body_a_b) then inl (mk_slice ["a"; "b"])
  else if decide (body = body_a) then inl (mk_slice ["a"])
  else if decide (body = body_c) then inl (mk_slice ["c"])
  else if decide (body = body_empty) then inl (mk_slice [])
  else if decide (body = body_no_tags) then inl nil_slice
  else inr "invalid character".

(** The URL up to the first [?], and what follows it. *)
Fixpoint split_query (s : string) : string * string :=
  match s with
  | EmptyString => (EmptyString, EmptyString)
  | String "?" q => (EmptyString, q)
  | String c s' => let '(p, q) := split_query s' in (String c p, q)
  end.

Definition plain (c : ascii) : bool :=
  negb (Ascii.eqb c "%" || Ascii.eqb c "#" || Ascii.eqb c ":" || Ascii.ltb c " "
        || Ascii.eqb c "127")%char.

Fixpoint all_plain (s : string) : bool :=
  match s with
  | EmptyString => true
  | String c s' => plain c && all_plain s'
  end.

(** [url.Parse] on a URL that starts with one [/] and has no scheme, no
    escape and no fragment; other URLs are turned down. *)
Definition url_Parse (s : string) : URL + string :=
  match s with
  | String "/" (String "/" _) => inr "not a plain path"
  | String "/" _ =>
      if all_plain s then
        let '(p, q) := split_query s in inl (mkURL p q)
      else inr "not a plain path"
  | _ => inr "not a plain path"
  end.

(** Modelled from the spec: the constant [tagsPath] is declared outside
    [docker_image.go]; in the example of the spec the listing of the
    repository [r] is at [/v2/r/tags/list]. *)
Definition tagsPath (name : string) : string := "/v2/" +:+ name +:+ "/tags/list".

(** [</v2/r/tags/list?next=2>; rel="next"] *)
Definition link_next_2 : string := "</v2/r/tags/list?next=2>; rel=" +:+ quoted "next".

Definition ok (body : string) (links : list string) : Response + string :=
  inl (mkResponse 200 {[ "Link" := links ]} body).

Definition ok_no_link (body : string) : Response + string :=
  inl (mkResponse 200 ∅ body).

(** Page 1 [{"Tags":["a","b"]}] with the header
    [Link: </v2/r/tags/list?next=2>; rel="next"], page 2 [{"Tags":["c"]}]
    with no [Link] header. *)
Definition two_pages : table :=
  {[ "/v2/r/tags/list" := ok body_a_b [link_next_2];
     "/v2/r/tags/list?next=2" := ok_no_link body_c ]}.

(** The same, with more values under [Link] on page 1. *)
Definition two_pages_more_links : table :=
  {[ "/v2/r/tags/list" := ok body_a_b [link_next_2; "</v2/r/tags/list?next=9>; rel=x"; "junk"];
     "/v2/r/tags/list?next=2" := ok_no_link body_c ]}.

(** Page 1 [{"Tags":["a"]}] with the header [Link: malformed-value]. *)
Definition malformed_link : table :=
  {[ "/v2/r/tags/list" := ok body_a ["malformed-value"] ]}.

(** One page, [{}], with a continuation header that is valid. *)
Definition no_tags_valid_link : table :=
  {[ "/v2/r/tags/list" := ok body_no_tags [link_next_2];
     "/v2/r/tags/list?next=2" := ok_no_link body_c ]}.

(** One page, [{}], with the header [Link: malformed-value]. *)
Definition no_tags_malformed_link : table :=
  {[ "/v2/r/tags/list" := ok body_no_tags ["malformed-value"] ]}.

(** Page 1 as in [two_pages], page 2 [{}]. *)
Definition second_page_no_tags : table :=
  {[ "/v2/r/tags/list" := ok body_a_b [link_next_2];
     "/v2/r/tags/list?next=2" := ok_no_link body_no_tags ]}.

(** Page 1 as in [two_pages], page 2 answered with the status [code]. *)
Definition second_page_status (code : Z) : table :=
  {[ "/v2/r/tags/list" := ok body_a_b [link_next_2];
     "/v2/r/tags/list?next=2" := inl (mkResponse code ∅ body_c) ]}.

(** Page 1 [{"Tags":[]}] with the continuation header, page 2 as in
    [two_pages]. *)
Definition empty_first_page : table :=
  {[ "/v2/r/tags/list" := ok body_empty [link_next_2];
     "/v2/r/tags/list?next=2" := ok_no_link body_c ]}.

Definition run (t : table) (fuel : nat) : option (Run World) :=
  GetRepositoryTags (makeRequest t) json_Decode url_Parse tagsPath fuel [] "r".

(** The registry after the first request, and after the second. *)
Definition after_one : World := [("GET", "/v2/r/tags/list")].

Definition after_two : World :=
  [("GET", "/v2/r/tags/list"); ("GET", "/v2/r/tags/list?next=2")].

(** The fetch of page 1 of [two_pages]. *)
Definition first_fetch : Fetch :=
  mkFetch "/v2/r/tags/list" (mk_slice ["a"; "b"]) [link_next_2] None.

(** The run over [two_pages]. *)
Definition two_pages_run : Run World :=
  mkRun (mk_slice ["a"; "b"; "c"]) None after_two
    [first_fetch; mkFetch "/v2/r/tags/list?next=2" (mk_slice ["c"]) [] None].

End Example.

(** ** A transport that keeps a record

    [recording makeRequest] answers as [makeRequest] does and appends the
    method and the path of every request to a list kept beside the state
    of the registry. *)
Definition recording {World : Type}
    (makeRequest : World -> string -> string -> World * (Response + string))
    (w : World * list (string * string)) (method path : string)
  : (World * list (string * string)) * (Response + string) :=
  let '(w', answer) := makeRequest (fst w) method path in
  ((w', snd w ++ [(method, path)]), answer).

(** The requests a log of fetches stands for. *)
Definition requests_of (fs : list Fetch) : list (string * string) :=
  (fun f => ("GET", fetch_path f)) <$> fs.

(** More tables for the example registry. *)
Module Scenario.

(** One page, [{"Tags":[]}], with no [Link] header. *)
Definition only_empty_page : Example.table :=
  {[ "/v2/r/tags/list" := Example.ok_no_link Example.body_empty ]}.

(** Page 1 as in [Example.two_pages]; page 2 [{"Tags":["c"]}] with a
    continuation header that points to page 2 again. *)
Definition cycle : Example.table :=
  {[ "/v2/r/tags/list" := Example.ok Example.body_a_b [Example.link_next_2];
     "/v2/r/tags/list?next=2" := Example.ok Example.body_c [Example.link_next_2] ]}.

(** Page 1 as in [Example.two_pages]; the second request is not carried
    out by the transport. *)
Definition second_page_unreachable : Example.table :=
  {[ "/v2/r/tags/list" := Example.ok Example.body_a_b [Example.link_next_2];
     "/v2/r/tags/list?next=2" := inr "connection refused" ]}.

(** [ rel="next"] *)
Definition rel_next : string := " rel=" +:+ Example.quoted "next".

End Scenario.

(** * Properties *)

(** ** Slices and errors *)

Lemma elems_append (s t : slice) : elems (append s t) = elems s ++ elems t.
Proof.
  unfold append. destruct (elems t) as [|x l] eqn:E.
  - by rewrite app_nil_r.
  - done.
Qed.

Lemma append_empty (s : slice) : append s (mk_slice []) = s.
Proof. done. Qed.

Lemma append_slice_of (l t : list string) :
  append (slice_of l) (mk_slice t) = slice_of (l ++ t).
Proof.
  destruct t as [|x t].
  - by rewrite app_nil_r.
  - unfold append; simpl. destruct l as [|y l]; done.
Qed.

Lemma elems_slice_of (l : list string) : elems (slice_of l) = l.
Proof. by destruct l. Qed.

Lemma Sprintf_d_inj (a b : Z) : Sprintf_d a = Sprintf_d b -> a = b.
Proof.
  unfold Sprintf_d. intros E.
  apply to_int_inj.
  assert (N : forall z, Z.to_int z <> Decimal.Pos Decimal.Nil /\
                        Z.to_int z <> Decimal.Neg Decimal.Nil).
  { intros [|p|p]; simpl; split; try discriminate; intros [= F];
      by apply DecimalPos.Unsigned.to_uint_nonnil in F. }
  apply (f_equal NilZero.int_of_string) in E.
  rewrite !NilZero.isi in E by apply N.
  congruence.
Qed.

(** The error made for a status code tells the code. *)
Lemma invalid_status_code_inj (a b : Z) :
  invalid_status_code a = invalid_status_code b -> a = b.
Proof.
  unfold invalid_status_code. intros [= E].
  by apply Sprintf_d_inj.
Qed.

Lemma invalid_status_code_not_link_header (c : Z) :
  invalid_status_code c <> link_header_error.
Proof. discriminate. Qed.

(** ** The regular expression *)

Lemma app_String (c : ascii) (a b : string) : String c a +:+ b = String c (a +:+ b).
Proof. done. Qed.

Lemma app_EmptyString (b : string) : "" +:+ b = b.
Proof. done. Qed.

Ltac string_app := rewrite ?app_String, ?app_EmptyString in *.

Lemma dots_app (a b : string) :
  nextLinkRegexp.dots (a +:+ b) = nextLinkRegexp.dots a && nextLinkRegexp.dots b.
Proof.
  induction a as [|c a IH]; string_app; simpl; [done|].
  rewrite IH. by rewrite andb_assoc.
Qed.

Lemma meta_group_Some (s m : string) :
  nextLinkRegexp.meta_group s = Some m <->
  m = s /\ s <> "" /\ nextLinkRegexp.dots s = true.
Proof.
  unfold nextLinkRegexp.meta_group. destruct s as [|c s].
  - split; [discriminate | intros (_ & N & _); done].
  - destruct (nextLinkRegexp.dots (String c s)); split.
    + intros [= <-]. done.
    + intros (-> & _). done.
    + discriminate.
    + intros (_ & _ & F). discriminate.
Qed.

Lemma after_url_Some (s m : string) :
  nextLinkRegexp.after_url s = Some m <->
  s = ">;" +:+ m /\ m <> "" /\ nextLinkRegexp.dots m = true.
Proof.
  split.
  - destruct s as [|c1 [|c2 rest]]; simpl.
    + discriminate.
    + destruct c1 as [[] [] [] [] [] [] [] []]; discriminate.
    + destruct c1 as [[] [] [] [] [] [] [] []]; try discriminate.
      destruct c2 as [[] [] [] [] [] [] [] []]; try discriminate.
      intros H. apply meta_group_Some in H as (-> & ? & ?). done.
  - intros (-> & N & D). string_app. simpl. apply meta_group_Some. done.
Qed.

Lemma url_group_sound (s u m : string) :
  nextLinkRegexp.url_group s = Some (u, m) ->
  s = u +:+ ">;" +:+ m /\ u <> "" /\ m <> "" /\
  nextLinkRegexp.dots u = true /\ nextLinkRegexp.dots m = true.
Proof.
  revert u m. induction s as [|c s IH]; intros u m;
    cbn [nextLinkRegexp.url_group]; [discriminate|].
  destruct (nextLinkRegexp.dot c) eqn:Dc; [|discriminate].
  destruct (nextLinkRegexp.url_group s) as [[u0 m0]|] eqn:G.
  - intros [= <- <-]. destruct (IH u0 m0 eq_refl) as (-> & ? & ? & Du & ?).
    string_app. cbn [nextLinkRegexp.dots]. rewrite Dc, Du. done.
  - destruct (nextLinkRegexp.after_url s) as [m0|] eqn:A; [|discriminate].
    intros [= <- <-]. apply after_url_Some in A as (-> & ? & ?).
    string_app. cbn [nextLinkRegexp.dots]. rewrite Dc. done.
Qed.

(** The first group is the longest one that lets the rest match. *)
Lemma url_group_greedy (u m : string) :
  u <> "" -> m <> "" ->
  nextLinkRegexp.dots u = true -> nextLinkRegexp.dots m = true ->
  exists u' m',
    nextLinkRegexp.url_group (u +:+ ">;" +:+ m) = Some (u', m') /\
    String.length u <= String.length u'.
Proof.
  intros Nu Nm Du Dm. induction u as [|c u IH]; [done|].
  cbn [nextLinkRegexp.dots] in Du. apply andb_true_iff in Du as [Dc Du].
  rewrite app_String. cbn [nextLinkRegexp.url_group]. rewrite Dc.
  destruct u as [|c' u].
  - rewrite app_EmptyString.
    destruct (nextLinkRegexp.url_group (">;" +:+ m)) as [[u1 m1]|] eqn:G.
    + exists (String c u1), m1. split; [done|]. simpl. lia.
    + assert (A : nextLinkRegexp.after_url (">;" +:+ m) = Some m)
        by (apply after_url_Some; done).
      rewrite A. exists (String c ""), m. done.
  - destruct IH as (u1 & m1 & -> & L); [done|done|].
    exists (String c u1), m1. split; [done|]. simpl in *. lia.
Qed.

(** When [FindStringSubmatch] matches, the value has the shape [<u>;m], the
    groups are [u] and [m], and [u] is the longest such. *)
Lemma FindStringSubmatch_Some (s : string) (l : list string) :
  nextLinkRegexp.FindStringSubmatch s = Some l ->
  exists u m, l = [s; u; m] /\ nextLinkRegexp.shape s u m /\
    forall u' m', nextLinkRegexp.shape s u' m' -> String.length u' <= String.length u.
Proof.
  unfold nextLinkRegexp.FindStringSubmatch. destruct s as [|c s]; [discriminate|].
  destruct c as [[] [] [] [] [] [] [] []]; try discriminate.
  destruct (nextLinkRegexp.url_group s) as [[u m]|] eqn:G; [|discriminate].
  intros [= <-]. exists u, m. split; [done|].
  destruct (url_group_sound _ _ _ G) as (-> & ? & ? & ? & ?).
  split; [done|].
  intros u' m' (E & ? & ? & ? & ?).
  destruct (url_group_greedy u' m') as (u1 & m1 & G1 & L); try done.
  string_app. injection E as E.
  rewrite <- E, G in G1. by injection G1 as <- <-.
Qed.

(** When it does not, the value has no such shape. *)
Lemma FindStringSubmatch_None (s : string) :
  nextLinkRegexp.FindStringSubmatch s = None ->
  forall u m, ~ nextLinkRegexp.shape s u m.
Proof.
  intros F u m (-> & ? & ? & ? & ?).
  destruct (url_group_greedy u m) as (u1 & m1 & G1 & L); try done.
  unfold nextLinkRegexp.FindStringSubmatch in F. string_app.
  by rewrite G1 in F.
Qed.

Lemma FindStringSubmatch_None_iff (s : string) :
  nextLinkRegexp.FindStringSubmatch s = None <->
  forall u m, ~ nextLinkRegexp.shape s u m.
Proof.
  split; [apply FindStringSubmatch_None|].
  intros N. destruct (nextLinkRegexp.FindStringSubmatch s) as [l|] eqn:F; [|done].
  destruct (FindStringSubmatch_Some _ _ F) as (u & m & _ & Sh & _).
  by destruct (N u m).
Qed.

(** [match[1]] is the URL between the angle brackets. *)
Lemma FindStringSubmatch_index (s : string) (l : list string) :
  nextLinkRegexp.FindStringSubmatch s = Some l ->
  exists meta, nextLinkRegexp.shape s (index l 1) meta.
Proof.
  intros F. destruct (FindStringSubmatch_Some _ _ F) as (u & m & -> & Sh & _).
  by exists m.
Qed.

Lemma append_append (s : slice) (a b : list string) :
  append (append s (mk_slice a)) (mk_slice b) = append s (mk_slice (a ++ b)).
Proof.
  destruct a as [|x a], b as [|y b]; unfold append; simpl; try done.
  - by rewrite app_nil_r.
  - by rewrite <- app_assoc.
Qed.

Lemma append_nil_slice (l : list string) : append nil_slice (mk_slice l) = slice_of l.
Proof. apply (append_slice_of []). Qed.

(** ** The page fetch and the loop *)

Section Properties.

Context {World : Type}.
Variable makeRequest : World -> string -> string -> World * (Response + string).
Variable json_Decode : string -> slice + string.
Variable url_Parse : string -> URL + string.
Variable tagsPath : string -> string.

Abbreviation fetch := (MakeRepositoryTagsRequest makeRequest json_Decode).
Abbreviation iteration := (loop_body makeRequest json_Decode url_Parse).
Abbreviation go := (loop makeRequest json_Decode url_Parse).
Abbreviation list_tags := (GetRepositoryTags makeRequest json_Decode url_Parse tagsPath).
Abbreviation is_page := (page makeRequest json_Decode).
Abbreviation leads_to := (points_to url_Parse).
Abbreviation serves := (pages makeRequest json_Decode url_Parse).
Abbreviation chained := (linked url_Parse).

(** *** One fetch *)

Lemma fetch_page w path tags links w' :
  is_page w path tags links w' ->
  fetch w path = (w', (mk_slice tags, links, None)).
Proof.
  intros (res & M & S & D & L). unfold MakeRepositoryTagsRequest.
  rewrite M, S, D, L. done.
Qed.

Lemma fetch_status w path w' res :
  makeRequest w "GET" path = (w', inl res) ->
  StatusCode res <> StatusOK ->
  fetch w path = (w', (nil_slice, [], Some (invalid_status_code (StatusCode res)))).
Proof.
  intros M S. unfold MakeRepositoryTagsRequest. rewrite M.
  apply Z.eqb_neq in S. by rewrite S.
Qed.

Lemma fetch_decoded w path w' res tags :
  makeRequest w "GET" path = (w', inl res) ->
  StatusCode res = StatusOK ->
  json_Decode (Body res) = inl tags ->
  fetch w path = (w', (tags, Header_index (Header res) "Link", None)).
Proof.
  intros M S D. unfold MakeRepositoryTagsRequest. by rewrite M, S, D.
Qed.

(** A fetch that gives an error gives nil tags and no header values. *)
Lemma fetch_error w path w' tags links e :
  fetch w path = (w', (tags, links, Some e)) -> tags = nil_slice /\ links = [].
Proof.
  unfold MakeRepositoryTagsRequest.
  destruct (makeRequest w "GET" path) as [w1 [res|err]].
  - destruct (negb (StatusCode res =? StatusOK)%Z).
    + by intros [= _ <- <- _].
    + destruct (json_Decode (Body res)); [discriminate|].
      by intros [= _ <- <- _].
  - by intros [= _ <- <- _].
Qed.

(** *** One iteration *)

Lemma iteration_nil_tags w path result w' links err :
  fetch w path = (w', (nil_slice, links, err)) ->
  iteration w path result = (w', mkFetch path nil_slice links err, Return nil_slice err).
Proof. intros F. unfold loop_body. by rewrite F. Qed.

Lemma iteration_no_link w path result w' tags err :
  fetch w path = (w', (mk_slice tags, [], err)) ->
  iteration w path result =
    (w', mkFetch path (mk_slice tags) [] err,
     Next true path (append result (mk_slice tags))).
Proof. intros F. unfold loop_body. by rewrite F. Qed.

Lemma iteration_next w path result w' tags link links err path' :
  fetch w path = (w', (mk_slice tags, link :: links, err)) ->
  leads_to link path' ->
  iteration w path result =
    (w', mkFetch path (mk_slice tags) (link :: links) err,
     Next false path' (append result (mk_slice tags))).
Proof.
  intros F (m & u & M & U & ->). unfold loop_body. by rewrite F, M, U.
Qed.

Lemma iteration_no_match w path result w' tags link links err :
  fetch w path = (w', (mk_slice tags, link :: links, err)) ->
  nextLinkRegexp.FindStringSubmatch link = None ->
  iteration w path result =
    (w', mkFetch path (mk_slice tags) (link :: links) err,
     Return nil_slice (Some link_header_error)).
Proof. intros F M. unfold loop_body. by rewrite F, M. Qed.

Lemma iteration_no_parse w path result w' tags link links err m uerr :
  fetch w path = (w', (mk_slice tags, link :: links, err)) ->
  nextLinkRegexp.FindStringSubmatch link = Some m ->
  url_Parse (index m 1) = inr uerr ->
  iteration w path result =
    (w', mkFetch path (mk_slice tags) (link :: links) err,
     Return nil_slice (Some (url_Error uerr))).
Proof. intros F M U. unfold loop_body. by rewrite F, M, U. Qed.

(** *** The loop *)

Lemma loop_done fuel w path result log :
  go fuel w true path result log = Some (mkRun result None w log).
Proof. by destruct fuel. Qed.

Lemma loop_step fuel w path result log :
  go (S fuel) w false path result log =
    match iteration w path result with
    | (w', f, Return tags err) => Some (mkRun tags err w' (log ++ [f]))
    | (w', f, Next done' path' result') =>
        go fuel w' done' path' result' (log ++ [f])
    end.
Proof. done. Qed.

(** More fuel does not change a result. *)
Lemma loop_mono fuel fuel' w done path result log r :
  go fuel w done path result log = Some r ->
  fuel <= fuel' ->
  go fuel' w done path result log = Some r.
Proof.
  revert fuel' w done path result log.
  induction fuel as [|fuel IH]; intros fuel' w [] path result log H L.
  - by rewrite loop_done in *.
  - done.
  - by rewrite loop_done in *.
  - destruct fuel' as [|fuel']; [lia|].
    rewrite loop_step in *.
    destruct (iteration w path result) as [[w1 f] [tags err|d1 p1 r1]]; [done|].
    apply IH; [done|lia].
Qed.

(** The log handed to the loop comes back in front of the fetches made. *)
Lemma loop_log fuel w done path result log :
  go fuel w done path result log =
    (fun r => mkRun (ret_tags r) (ret_err r) (ret_world r) (log ++ ret_fetches r))
      <$> go fuel w done path result [].
Proof.
  revert w done path result log.
  induction fuel as [|fuel IH]; intros w [] path result log.
  - rewrite !loop_done. simpl. by rewrite app_nil_r.
  - done.
  - rewrite !loop_done. simpl. by rewrite app_nil_r.
  - rewrite !loop_step.
    destruct (iteration w path result) as [[w1 f] [tags err|d1 p1 r1]]; [done|].
    rewrite (IH _ _ _ _ (log ++ [f])), (IH _ _ _ _ ([] ++ [f])).
    destruct (go fuel w1 d1 p1 r1 []) as [r|]; simpl; [|done].
    by rewrite <- app_assoc.
Qed.

(** The pages of a chain take one iteration each, and leave the loop at
    the path the last of them points to, with their tags appended. *)
Lemma loop_pages w path ps w' path' :
  serves w path ps w' path' ->
  exists fs,
    length fs = length ps /\
    fetch_tags <$> fs = mk_slice <$> ps /\
    forall fuel result log,
      go (length ps + fuel) w false path result log =
      go fuel w' false path' (append result (mk_slice (concat ps))) (log ++ fs).
Proof.
  induction 1 as [w path|w path tags link links w1 path1 ps w' path' P T _ IH].
  - exists []. split; [done|]. split; [done|].
    intros. simpl. by rewrite app_nil_r.
  - destruct IH as (fs & L & E & IH).
    exists (mkFetch path (mk_slice tags) (link :: links) None :: fs).
    split; [simpl; congruence|]. split; [by rewrite !fmap_cons, E|].
    intros fuel result log. cbn [length Nat.add concat].
    rewrite loop_step.
    rewrite (iteration_next _ _ _ _ _ _ _ _ _ (fetch_page _ _ _ _ _ P) T).
    rewrite IH, append_append. by rewrite <- app_assoc.
Qed.

(** *** The log of a run *)

(** What an iteration that ended in a given way has seen. *)
Lemma iteration_inv w path result w' f fl :
  iteration w path result = (w', f, fl) ->
  exists tags links err,
    fetch w path = (w', (tags, links, err)) /\
    f = mkFetch path tags links err /\
    match fl with
    | Return t e =>
        t = nil_slice /\
        ((tags = nil_slice /\ e = err) \/
         (tags <> nil_slice /\ err = None /\
          exists link ls, links = link :: ls /\
            (forall path', ~ leads_to link path') /\
            ((nextLinkRegexp.FindStringSubmatch link = None /\
              e = Some link_header_error) \/
             (exists m uerr,
                nextLinkRegexp.FindStringSubmatch link = Some m /\
                url_Parse (index m 1) = inr uerr /\
                e = Some (url_Error uerr)))))
    | Next done path' result' =>
        tags <> nil_slice /\ err = None /\ result' = append result tags /\
        if done then links = [] /\ path' = path
        else exists link ls, links = link :: ls /\ leads_to link path'
    end.
Proof.
  unfold loop_body.
  destruct (fetch w path) as [w1 [[tags links] err]] eqn:F.
  assert (N : tags <> nil_slice -> err = None).
  { destruct err as [e|]; [|done]. by destruct (fetch_error _ _ _ _ _ _ F). }
  destruct tags as [|tags]; simpl.
  - intros [= <- <- <-]. exists nil_slice, links, err. naive_solver.
  - destruct links as [|link ls].
    + intros [= <- <- <-]. exists (mk_slice tags), [], err. naive_solver.
    + destruct (nextLinkRegexp.FindStringSubmatch link) as [m|] eqn:M.
      * destruct (url_Parse (index m 1)) as [u|uerr] eqn:U.
        -- intros [= <- <- <-]. exists (mk_slice tags), (link :: ls), err.
           repeat split; try done; [by apply N|].
           exists link, ls. split; [done|]. by exists m, u.
        -- intros [= <- <- <-]. exists (mk_slice tags), (link :: ls), err.
           repeat split; try done. right. repeat split; try done; [by apply N|].
           exists link, ls. split; [done|]. split.
           ++ intros path' (m' & u' & M' & U' & _). congruence.
           ++ right. by exists m, uerr.
      * intros [= <- <- <-]. exists (mk_slice tags), (link :: ls), err.
        repeat split; try done. right. repeat split; try done; [by apply N|].
        exists link, ls. split; [done|]. split.
        -- intros path' (m' & u' & M' & _). congruence.
        -- by left.
Qed.

(** The log of a finished run: the first fetch is at the path the loop
    started with, every fetch but the last was continued by the next,
    and the last one decides how the run ends. *)
Lemma loop_trace fuel w path result r :
  go fuel w false path result [] = Some r ->
  exists fs f,
    ret_fetches r = fs ++ [f] /\
    fetch_path <$> head (ret_fetches r) = Some path /\
    chained (ret_fetches r) /\
    (ret_err r = None <->
       fetch_err f = None /\ (fetch_tags f = nil_slice \/ fetch_links f = [])) /\
    (fetch_tags f <> nil_slice ->
       fetch_err f = None /\
       forall link ls path', fetch_links f = link :: ls -> ~ leads_to link path') /\
    (ret_err r <> None -> ret_tags r = nil_slice).
Proof.
  revert w path result r.
  induction fuel as [|fuel IH]; intros w path result r; [done|].
  rewrite loop_step.
  destruct (iteration w path result) as [[w1 f] fl] eqn:I.
  destruct (iteration_inv _ _ _ _ _ _ I) as (tags & links & err & _ & -> & H).
  destruct fl as [t e|[] p1 r1].
  - intros [= <-]. exists [], (mkFetch path tags links err). simpl.
    destruct H as [-> H].
    split; [done|]. split; [done|]. split; [done|]. split; [|split].
    + destruct H as [[-> <-]|(Nt & -> & l & ls & -> & _ & He)].
      * split; [intros ->; auto | by intros [-> _]].
      * split; [|intros [_ [?|?]]; done].
        intros ->. destruct He as [[_ ?]|(? & ? & _ & _ & ?)]; done.
    + intros Nt.
      destruct H as [[-> _]|(_ & -> & l' & ls' & -> & Hn & _)]; [done|].
      split; [done|]. intros l ls path' E. injection E as <- <-. apply Hn.
    + done.
  - rewrite loop_done. intros [= <-]. exists [], (mkFetch path tags links err).
    destruct H as (Nt & -> & _ & -> & _). simpl.
    split; [done|]. split; [done|]. split; [done|].
    split; [split; auto|]. split; [|done].
    intros _. split; [done|]. intros l ls path' E. discriminate E.
  - rewrite loop_log.
    destruct (go fuel w1 false p1 r1 []) as [r0|] eqn:G; [|done].
    simpl. intros [= <-]. simpl.
    destruct (IH _ _ _ _ G) as (fs & f0 & E & Hd & C & S & V & N).
    destruct H as (Nt & -> & _ & l & ls & -> & T).
    exists (mkFetch path tags (l :: ls) None :: fs), f0.
    split; [by rewrite E|]. split; [done|]. split; [|done].
    destruct (ret_fetches r0) as [|f1 l1]; [by destruct fs|].
    simpl in Hd. injection Hd as ->. split; [|done].
    unfold continued; simpl. eauto 10.
Qed.

Lemma chained_continued (l fs1 fs2 : list Fetch) (f f' : Fetch) :
  chained l -> l = fs1 ++ f :: f' :: fs2 -> continued url_Parse f (fetch_path f').
Proof.
  intros C ->. induction fs1 as [|g fs1 IH]; simpl in C.
  - apply C.
  - apply IH. destruct (fs1 ++ f :: f' :: fs2) eqn:E; [|apply C].
    by destruct fs1.
Qed.

(** *** Runs of [GetRepositoryTags] *)

(** A run that meets a returning iteration after a chain of pages. *)
Lemma GetRepositoryTags_return w name ps w1 path1 w2 f t e fuel :
  serves w (tagsPath name) ps w1 path1 ->
  iteration w1 path1 (slice_of (concat ps)) = (w2, f, Return t e) ->
  S (length ps) <= fuel ->
  exists fs,
    list_tags fuel w name = Some (mkRun t e w2 (fs ++ [f])) /\
    length fs = length ps /\
    fetch_tags <$> fs = mk_slice <$> ps.
Proof.
  intros P I L. destruct (loop_pages _ _ _ _ _ P) as (fs & Lf & Tf & G).
  exists fs. split; [|done].
  apply (loop_mono (length ps + 1)); [|lia].
  rewrite G, append_nil_slice, loop_step, I. done.
Qed.

(** A run that meets a page without continuation header after a chain. *)
Lemma GetRepositoryTags_done w name ps w1 path1 w2 f path2 result fuel :
  serves w (tagsPath name) ps w1 path1 ->
  iteration w1 path1 (slice_of (concat ps)) = (w2, f, Next true path2 result) ->
  S (length ps) <= fuel ->
  exists fs,
    list_tags fuel w name = Some (mkRun result None w2 (fs ++ [f])) /\
    length fs = length ps /\
    fetch_tags <$> fs = mk_slice <$> ps.
Proof.
  intros P I L. destruct (loop_pages _ _ _ _ _ P) as (fs & Lf & Tf & G).
  exists fs. split; [|done].
  apply (loop_mono (length ps + 1)); [|lia].
  rewrite G, append_nil_slice, loop_step, I. by rewrite loop_done.
Qed.

(** A chain of pages alone does not finish the run: the fetch after the
    last of them is still to be made. *)
Lemma GetRepositoryTags_short w name ps w1 path1 :
  serves w (tagsPath name) ps w1 path1 ->
  list_tags (length ps) w name = None.
Proof.
  intros P. destruct (loop_pages _ _ _ _ _ P) as (fs & _ & _ & G).
  unfold GetRepositoryTags. rewrite <- (Nat.add_0_r (length ps)) at 1.
  by rewrite G.
Qed.

Lemma iteration_fails w path w' e result :
  fails makeRequest json_Decode url_Parse w path w' e ->
  exists f, fetch_path f = path /\
    iteration w path result = (w', f, Return nil_slice (Some e)).
Proof.
  intros [w2 err M|w2 res M S|w2 res err M S D|w2 tags link links P M
         |w2 tags link links m uerr P M U]; eexists.
  - split; [|apply iteration_nil_tags]; [done|].
    unfold MakeRepositoryTagsRequest. by rewrite M.
  - split; [|apply iteration_nil_tags]; [done|]. by apply fetch_status.
  - split; [|apply iteration_nil_tags]; [done|].
    unfold MakeRepositoryTagsRequest. by rewrite M, S, D.
  - split; [|eapply iteration_no_match]; [done| |done]. by apply fetch_page.
  - split; [|eapply iteration_no_parse]; [done| | |]; [by apply fetch_page|done|done].
Qed.

(** C1.  When the registry serves the pages [ps] and then [tags], each
    page of [ps] with a continuation header that points to the next page
    and the last page with none, every body decoding to a tag array, then
    [GetRepositoryTags] returns the tags of the pages put one after the
    other in page order, with a nil error, after one fetch per page and
    no fewer; for a single page without continuation header it returns
    that page's tags after the one fetch of the starting path. *)
Theorem GetRepositoryTags_concat w name ps w1 path1 tags w2 fuel :
  serves w (tagsPath name) ps w1 path1 ->
  is_page w1 path1 tags [] w2 ->
  S (length ps) <= fuel ->
  (exists fs,
     list_tags fuel w name =
       Some (mkRun (slice_of (concat (ps ++ [tags]))) None w2 fs) /\
     length fs = length (ps ++ [tags]) /\
     fetch_tags <$> fs = mk_slice <$> (ps ++ [tags])) /\
  list_tags (length ps) w name = None /\
  (ps = [] ->
     list_tags fuel w name =
       Some (mkRun (slice_of tags) None w2
               [mkFetch (tagsPath name) (mk_slice tags) [] None])).
Proof.
  intros P T L.
  pose proof (iteration_no_link _ _ (slice_of (concat ps)) _ _ _
                (fetch_page _ _ _ _ _ T)) as I.
  destruct (GetRepositoryTags_done _ _ _ _ _ _ _ _ _ _ P I L) as (fs & R & Lf & Tf).
  rewrite append_slice_of in R.
  assert (C : concat (ps ++ [tags]) = concat ps ++ tags).
  { rewrite concat_app. simpl. by rewrite app_nil_r. }
  split; [|split].
  - eexists. rewrite C. split; [exact R|].
    split; [rewrite !length_app; simpl; lia|].
    rewrite !fmap_app. by rewrite Tf.
  - by eapply GetRepositoryTags_short.
  - intros ->. inversion P; subst. destruct fs; [|done].
    rewrite R. done.
Qed.

(** C3.  When a page, after any chain of earlier pages, comes with status
    200 and a body that decodes with nil tags, [GetRepositoryTags] returns
    nil tags and a nil error right after that fetch, whatever was
    gathered before and whatever the page has under [Link]. *)
Theorem GetRepositoryTags_nil_tags w name ps w1 path1 w2 res fuel :
  serves w (tagsPath name) ps w1 path1 ->
  makeRequest w1 "GET" path1 = (w2, inl res) ->
  StatusCode res = StatusOK ->
  json_Decode (Body res) = inl nil_slice ->
  S (length ps) <= fuel ->
  exists fs,
    list_tags fuel w name =
      Some (mkRun nil_slice None w2
              (fs ++ [mkFetch path1 nil_slice (Header_index (Header res) "Link") None])) /\
    length fs = length ps /\
    fetch_tags <$> fs = mk_slice <$> ps.
Proof.
  intros P M S D L.
  eapply GetRepositoryTags_return; [done| |done].
  apply iteration_nil_tags. by apply fetch_decoded.
Qed.

(** C4.  A run that returns an error returns nil tags; and each kind of
    failure, met after any chain of pages, ends the run with that error
    and nil tags at the fetch where it is met. *)
Theorem GetRepositoryTags_error_nil fuel w name :
  (forall r, list_tags fuel w name = Some r ->
     ret_err r <> None -> ret_tags r = nil_slice) /\
  (forall ps w1 path1 w2 e,
     serves w (tagsPath name) ps w1 path1 ->
     fails makeRequest json_Decode url_Parse w1 path1 w2 e ->
     S (length ps) <= fuel ->
     exists fs,
       list_tags fuel w name = Some (mkRun nil_slice (Some e) w2 fs) /\
       length fs = S (length ps)).
Proof.
  split.
  - intros r R. by destruct (loop_trace _ _ _ _ _ R) as (_ & _ & _ & _ & _ & _ & _ & N).
  - intros ps w1 path1 w2 e P F L.
    destruct (iteration_fails _ _ _ _ (slice_of (concat ps)) F) as (f & _ & I).
    destruct (GetRepositoryTags_return _ _ _ _ _ _ _ _ _ _ P I L) as (fs & R & Lf & _).
    eexists. split; [exact R|]. rewrite length_app. simpl. lia.
Qed.

(** C5, amended.  When a page whose body decodes to a tag array, after any
    chain of earlier pages, has a first value under [Link] that the
    expression does not match, [GetRepositoryTags] returns the error
    "Could not parse link header ..." and nil tags at that fetch. *)
Theorem GetRepositoryTags_malformed_link w name ps w1 path1 tags link links w2 fuel :
  serves w (tagsPath name) ps w1 path1 ->
  is_page w1 path1 tags (link :: links) w2 ->
  nextLinkRegexp.FindStringSubmatch link = None ->
  S (length ps) <= fuel ->
  exists fs,
    list_tags fuel w name =
      Some (mkRun nil_slice (Some link_header_error) w2
              (fs ++ [mkFetch path1 (mk_slice tags) (link :: links) None])) /\
    length fs = length ps /\
    fetch_tags <$> fs = mk_slice <$> ps.
Proof.
  intros P T M L.
  eapply GetRepositoryTags_return; [done| |done].
  apply iteration_no_match; [|done]. by apply fetch_page.
Qed.



(** C9.  A page whose body decodes to an empty tag array that is not nil
    leaves the tags gathered so far as they are: without a value under
    [Link] the run ends there with those tags and a nil error, with a
    first value that points to a path the loop goes on to fetch that
    path; and a run over pages one of which is empty returns the tags of
    the other pages, after one fetch per page. *)
Theorem empty_page_is_valid :
  (forall w path links w',
     is_page w path [] links w' ->
     (links = [] ->
      forall fuel result log,
        go (S fuel) w false path result log =
        Some (mkRun result None w' (log ++ [mkFetch path (mk_slice []) [] None]))) /\
     (forall link ls path',
        links = link :: ls -> leads_to link path' ->
        forall fuel result log,
          go (S fuel) w false path result log =
          go fuel w' false path' result
            (log ++ [mkFetch path (mk_slice []) (link :: ls) None]))) /\
  (forall w name ps1 ps2 w1 path1 tags w2 fuel,
     serves w (tagsPath name) (ps1 ++ [] :: ps2) w1 path1 ->
     is_page w1 path1 tags [] w2 ->
     S (length (ps1 ++ [] :: ps2)) <= fuel ->
     exists fs,
       list_tags fuel w name =
         Some (mkRun (slice_of (concat (ps1 ++ ps2 ++ [tags]))) None w2 fs) /\
       length fs = S (length (ps1 ++ [] :: ps2))).
Proof.
  split.
  - intros w path links w' P. split.
    + intros -> fuel result log. rewrite loop_step.
      erewrite iteration_no_link; [|by apply fetch_page].
      by rewrite loop_done, append_empty.
    + intros link ls path' -> T fuel result log. rewrite loop_step.
      erewrite iteration_next; [|by apply fetch_page|done].
      by rewrite append_empty.
  - intros w name ps1 ps2 w1 path1 tags w2 fuel P T L.
    pose proof (iteration_no_link _ _ (slice_of (concat (ps1 ++ [] :: ps2))) _ _ _
                  (fetch_page _ _ _ _ _ T)) as I.
    destruct (GetRepositoryTags_done _ _ _ _ _ _ _ _ _ _ P I L) as (fs & R & Lf & _).
    rewrite append_slice_of in R.
    assert (C : concat (ps1 ++ [] :: ps2) ++ tags = concat (ps1 ++ ps2 ++ [tags])).
    { rewrite !concat_app. simpl. by rewrite app_nil_r, app_assoc. }
    rewrite C in R. rewrite R. eexists. split; [done|].
    rewrite length_app. simpl. lia.
Qed.

(** C10.  After a request that the transport carried out,
    [MakeRepositoryTagsRequest] returns the error made for the status
    code, with nil tags and no header values, exactly when the status
    code is not 200; so it does for 201 and for 204. *)
Theorem MakeRepositoryTagsRequest_only_200 w path w' res :
  makeRequest w "GET" path = (w', inl res) ->
  (StatusCode res <> 200%Z <->
   fetch w path = (w', (nil_slice, [], Some (invalid_status_code (StatusCode res))))) /\
  (StatusCode res = 201%Z \/ StatusCode res = 204%Z ->
   fetch w path = (w', (nil_slice, [], Some (invalid_status_code (StatusCode res))))).
Proof.
  intros M.
  assert (A : StatusCode res <> 200%Z ->
              fetch w path =
                (w', (nil_slice, [], Some (invalid_status_code (StatusCode res)))))
    by apply fetch_status, M.
  split; [split; [done|]|].
  - intros F S. unfold MakeRepositoryTagsRequest in F. rewrite M, S in F.
    simpl in F. destruct (json_Decode (Body res)); discriminate.
  - intros [S|S]; apply A; rewrite S; done.
Qed.

End Properties.

(** C6.  When a fetch, after any chain of pages, is answered with a status
    code other than 200, [GetRepositoryTags] returns at that fetch the error
    "Invalid status code ..." made of that code, with nil tags; the error
    tells the code; and the fetch gives the same whatever the decoder is,
    the body is not decoded. *)
Theorem GetRepositoryTags_status {World : Type}
    (makeRequest : World -> string -> string -> World * (Response + string))
    (json_Decode : string -> slice + string)
    (url_Parse : string -> URL + string) (tagsPath : string -> string)
    (w : World) (name : string) (ps : list (list string))
    (w1 : World) (path1 : string) (w2 : World) (res : Response) (fuel : nat) :
  pages makeRequest json_Decode url_Parse w (tagsPath name) ps w1 path1 ->
  makeRequest w1 "GET" path1 = (w2, inl res) ->
  StatusCode res <> StatusOK ->
  S (length ps) <= fuel ->
  (exists fs,
     GetRepositoryTags makeRequest json_Decode url_Parse tagsPath fuel w name =
       Some (mkRun nil_slice (Some (invalid_status_code (StatusCode res))) w2
               (fs ++ [mkFetch path1 nil_slice []
                         (Some (invalid_status_code (StatusCode res)))])) /\
     length fs = length ps /\
     fetch_tags <$> fs = mk_slice <$> ps) /\
  (forall code,
     invalid_status_code code = invalid_status_code (StatusCode res) ->
     code = StatusCode res) /\
  (forall json_Decode',
     MakeRepositoryTagsRequest makeRequest json_Decode' w1 path1 =
     MakeRepositoryTagsRequest makeRequest json_Decode w1 path1).
Proof.
  intros P M S L. split; [|split].
  - eapply GetRepositoryTags_return; [done| |done].
    apply iteration_nil_tags. by apply fetch_status.
  - intros code. apply invalid_status_code_inj.
  - intros D'. by rewrite !(fetch_status _ _ _ _ _ _ M S).
Qed.

(** ** Header values after the first *)

Section LaterLinks.

Context {World : Type}.
Variables makeRequest1 makeRequest2
  : World -> string -> string -> World * (Response + string).
Variable json_Decode : string -> slice + string.
Variable url_Parse : string -> URL + string.
Variable tagsPath : string -> string.

Hypothesis same : same_but_later_links_registry makeRequest1 makeRequest2.

Lemma fetch_same w path :
  match MakeRepositoryTagsRequest makeRequest1 json_Decode w path,
        MakeRepositoryTagsRequest makeRequest2 json_Decode w path with
  | (w1, (t1, l1, e1)), (w2, (t2, l2, e2)) =>
      w1 = w2 /\ t1 = t2 /\ e1 = e2 /\ head l1 = head l2
  end.
Proof.
  unfold MakeRepositoryTagsRequest. pose proof (same w "GET" path) as H.
  destruct (makeRequest1 w "GET" path) as [w1 [r1|e1]],
           (makeRequest2 w "GET" path) as [w2 [r2|e2]]; try done.
  - destruct H as (-> & S & B & L). rewrite S, B.
    destruct (negb (StatusCode r2 =? StatusOK)%Z); [done|].
    destruct (json_Decode (Body r2)); done.
  - by destruct H as (-> & ->).
Qed.

Lemma iteration_same w path result :
  match loop_body makeRequest1 json_Decode url_Parse w path result,
        loop_body makeRequest2 json_Decode url_Parse w path result with
  | (w1, f1, fl1), (w2, f2, fl2) =>
      w1 = w2 /\ fl1 = fl2 /\ fetch_path f1 = fetch_path f2
  end.
Proof.
  unfold loop_body. pose proof (fetch_same w path) as H.
  destruct (MakeRepositoryTagsRequest makeRequest1 json_Decode w path)
    as [w1 [[t1 l1] e1]],
    (MakeRepositoryTagsRequest makeRequest2 json_Decode w path)
    as [w2 [[t2 l2] e2]].
  destruct H as (-> & -> & -> & L).
  destruct (is_nil t2); [done|].
  destruct l1 as [|a1 l1], l2 as [|a2 l2]; try done.
  injection L as ->.
  destruct (nextLinkRegexp.FindStringSubmatch a2) as [m|]; [|done].
  destruct (url_Parse (index m 1)); done.
Qed.

Lemma loop_same fuel w done path result log1 log2 :
  fetch_path <$> log1 = fetch_path <$> log2 ->
  outcome <$> loop makeRequest1 json_Decode url_Parse fuel w done path result log1 =
  outcome <$> loop makeRequest2 json_Decode url_Parse fuel w done path result log2.
Proof.
  revert w done path result log1 log2.
  induction fuel as [|fuel IH]; intros w [] path result log1 log2 E.
  - rewrite !loop_done. unfold outcome; simpl. by rewrite E.
  - done.
  - rewrite !loop_done. unfold outcome; simpl. by rewrite E.
  - rewrite !loop_step. pose proof (iteration_same w path result) as H.
    destruct (loop_body makeRequest1 json_Decode url_Parse w path result)
      as [[w1 f1] fl1],
      (loop_body makeRequest2 json_Decode url_Parse w path result)
      as [[w2 f2] fl2].
    destruct H as (-> & -> & F).
    assert (E' : fetch_path <$> log1 ++ [f1] = fetch_path <$> log2 ++ [f2]).
    { rewrite !fmap_app. simpl. by rewrite E, F. }
    destruct fl2 as [t e|d p r].
    + unfold outcome; simpl. by rewrite E'.
    + by apply IH.
Qed.


End LaterLinks.

(** ** The lister on the example registry *)

Lemma link_next_2_points :
  points_to Example.url_Parse Example.link_next_2 "/v2/r/tags/list?next=2".
Proof.
  exists [Example.link_next_2; "/v2/r/tags/list?next=2"; " rel=" +:+ Example.quoted "next"],
    (mkURL "/v2/r/tags/list" "next=2").
  repeat split; vm_compute; reflexivity.
Qed.

(** What the example registry answers with, when the decoder knows the
    body. *)
Lemma page_served (t : Example.table) (w : Example.World) (path body : string)
    (links tags : list string) :
  t !! path = Some (Example.ok body links) ->
  Example.json_Decode body = inl (mk_slice tags) ->
  page (Example.makeRequest t) Example.json_Decode w path tags links
    (w ++ [("GET", path)]).
Proof.
  intros L D. exists (mkResponse 200 {[ "Link" := links ]} body).
  unfold Example.makeRequest. rewrite L.
  split; [done|]. split; [done|]. split; [done|].
  unfold Header_index. simpl. by rewrite lookup_singleton_eq.
Qed.

Lemma page_served_no_link (t : Example.table) (w : Example.World)
    (path body : string) (tags : list string) :
  t !! path = Some (Example.ok_no_link body) ->
  Example.json_Decode body = inl (mk_slice tags) ->
  page (Example.makeRequest t) Example.json_Decode w path tags []
    (w ++ [("GET", path)]).
Proof.
  intros L D. exists (mkResponse 200 ∅ body).
  unfold Example.makeRequest. rewrite L. done.
Qed.

(** A table whose first page is page 1 of [two_pages] serves it first. *)
Lemma first_page_served (t : Example.table) :
  t !! "/v2/r/tags/list" = Some (Example.ok Example.body_a_b [Example.link_next_2]) ->
  pages (Example.makeRequest t) Example.json_Decode Example.url_Parse
    [] "/v2/r/tags/list" [["a"; "b"]] Example.after_one "/v2/r/tags/list?next=2".
Proof.
  intros L. eapply pages_cons; [|apply link_next_2_points|apply pages_nil].
  by refine (page_served t [] "/v2/r/tags/list" Example.body_a_b
               [Example.link_next_2] ["a"; "b"] _ _).
Qed.

Lemma lookup_other (path : string) (a b : Response + string) :
  path <> "/v2/r/tags/list" -> path <> "/v2/r/tags/list?next=2" ->
  ({[ "/v2/r/tags/list" := a; "/v2/r/tags/list?next=2" := b ]} : Example.table) !! path = None.
Proof.
  intros N1 N2. rewrite lookup_insert_ne by done. by rewrite lookup_singleton_ne.
Qed.

Lemma two_pages_more_links_same :
  same_but_later_links_registry
    (Example.makeRequest Example.two_pages_more_links)
    (Example.makeRequest Example.two_pages).
Proof.
  intros w method path. unfold Example.makeRequest.
  destruct (decide (path = "/v2/r/tags/list")) as [->|N1].
  - split; [done|]. vm_compute. done.
  - destruct (decide (path = "/v2/r/tags/list?next=2")) as [->|N2].
    + split; [done|]. vm_compute. done.
    + unfold Example.two_pages_more_links, Example.two_pages.
      rewrite !lookup_other by done. done.
Qed.


(** C5 as stated fails: the first value under [Link] does not match, and
    the run ends with a nil error. *)
Lemma malformed_link_without_error :
  Example.run Example.no_tags_malformed_link 2 =
    Some (mkRun nil_slice None Example.after_one
            [mkFetch "/v2/r/tags/list" nil_slice ["malformed-value"] None]) /\
  nextLinkRegexp.FindStringSubmatch "malformed-value" = None.
Proof. split; by vm_compute. Qed.

(** ** The theorems at work on the example registry *)

Lemma GetRepositoryTags_concat_witness :
  pages (Example.makeRequest Example.two_pages) Example.json_Decode Example.url_Parse
    [] (Example.tagsPath "r") [["a"; "b"]] Example.after_one "/v2/r/tags/list?next=2" /\
  page (Example.makeRequest Example.two_pages) Example.json_Decode
    Example.after_one "/v2/r/tags/list?next=2" ["c"] [] Example.after_two /\
  (exists fs,
     Example.run Example.two_pages 2 =
       Some (mkRun (mk_slice ["a"; "b"; "c"]) None Example.after_two fs) /\
     length fs = 2) /\
  Example.run Example.two_pages 1 = None.
Proof.
  assert (P : pages (Example.makeRequest Example.two_pages) Example.json_Decode
                Example.url_Parse [] (Example.tagsPath "r") [["a"; "b"]]
                Example.after_one "/v2/r/tags/list?next=2")
    by (apply first_page_served; vm_compute; reflexivity).
  assert (T : page (Example.makeRequest Example.two_pages) Example.json_Decode
                Example.after_one "/v2/r/tags/list?next=2" ["c"] [] Example.after_two)
    by (refine (page_served_no_link Example.two_pages Example.after_one
                  "/v2/r/tags/list?next=2" Example.body_c ["c"] _ _);
        vm_compute; reflexivity).
  split; [exact P|]. split; [exact T|].
  destruct (GetRepositoryTags_concat _ _ _ Example.tagsPath [] "r" _ _ _ _ _ 2 P T (le_n 2))
    as [(fs & R & L & _) [N _]].
  split; [|exact N]. exists fs. split; [exact R | exact L].
Defined.


Lemma GetRepositoryTags_nil_tags_witness :
  Example.makeRequest Example.second_page_no_tags Example.after_one "GET"
    "/v2/r/tags/list?next=2" =
    (Example.after_two, inl (mkResponse 200 ∅ Example.body_no_tags)) /\
  Example.json_Decode Example.body_no_tags = inl nil_slice /\
  exists fs,
    Example.run Example.second_page_no_tags 2 =
      Some (mkRun nil_slice None Example.after_two
              (fs ++ [mkFetch "/v2/r/tags/list?next=2" nil_slice [] None])) /\
    length fs = 1 /\
    fetch_tags <$> fs = [mk_slice ["a"; "b"]].
Proof.
  assert (P : pages (Example.makeRequest Example.second_page_no_tags)
                Example.json_Decode Example.url_Parse [] (Example.tagsPath "r")
                [["a"; "b"]] Example.after_one "/v2/r/tags/list?next=2")
    by (apply first_page_served; vm_compute; reflexivity).
  assert (M : Example.makeRequest Example.second_page_no_tags Example.after_one "GET"
                "/v2/r/tags/list?next=2" =
              (Example.after_two, inl (mkResponse 200 ∅ Example.body_no_tags)))
    by (vm_compute; reflexivity).
  assert (D : Example.json_Decode Example.body_no_tags = inl nil_slice)
    by (vm_compute; reflexivity).
  split; [exact M|]. split; [exact D|].
  exact (GetRepositoryTags_nil_tags _ _ _ Example.tagsPath [] "r" _ _ _ _ _ 2
           P M eq_refl D (le_n 2)).
Defined.

Lemma GetRepositoryTags_error_nil_witness :
  (Example.run Example.malformed_link 2 =
     Some (mkRun nil_slice (Some link_header_error) Example.after_one
             [mkFetch "/v2/r/tags/list" (mk_slice ["a"]) ["malformed-value"] None]) /\
   ret_tags (mkRun nil_slice (Some link_header_error) Example.after_one
               [mkFetch "/v2/r/tags/list" (mk_slice ["a"]) ["malformed-value"] None])
     = nil_slice) /\
  (fails (Example.makeRequest (Example.second_page_status 500)) Example.json_Decode
     Example.url_Parse Example.after_one "/v2/r/tags/list?next=2" Example.after_two
     (invalid_status_code 500) /\
   exists fs,
     Example.run (Example.second_page_status 500) 2 =
       Some (mkRun nil_slice (Some (invalid_status_code 500)) Example.after_two fs) /\
     length fs = 2).
Proof.
  split.
  - assert (R : Example.run Example.malformed_link 2 =
                Some (mkRun nil_slice (Some link_header_error) Example.after_one
                        [mkFetch "/v2/r/tags/list" (mk_slice ["a"])
                           ["malformed-value"] None]))
      by (vm_compute; reflexivity).
    split; [exact R|].
    apply (proj1 (GetRepositoryTags_error_nil _ _ _ Example.tagsPath 2 [] "r") _ R).
    discriminate.
  - assert (P : pages (Example.makeRequest (Example.second_page_status 500))
                  Example.json_Decode Example.url_Parse [] (Example.tagsPath "r")
                  [["a"; "b"]] Example.after_one "/v2/r/tags/list?next=2")
      by (apply first_page_served; vm_compute; reflexivity).
    assert (F : fails (Example.makeRequest (Example.second_page_status 500))
                  Example.json_Decode Example.url_Parse Example.after_one
                  "/v2/r/tags/list?next=2" Example.after_two (invalid_status_code 500)).
    { apply (fails_status _ _ _ _ _ _ (mkResponse 500 ∅ Example.body_c)).
      - vm_compute; reflexivity.
      - discriminate. }
    split; [exact F|].
    exact (proj2 (GetRepositoryTags_error_nil _ _ _ Example.tagsPath 2 [] "r")
             _ _ _ _ _ P F (le_n 2)).
Defined.

Lemma GetRepositoryTags_malformed_link_witness :
  page (Example.makeRequest Example.malformed_link) Example.json_Decode
    [] "/v2/r/tags/list" ["a"] ["malformed-value"] Example.after_one /\
  nextLinkRegexp.FindStringSubmatch "malformed-value" = None /\
  exists fs,
    Example.run Example.malformed_link 1 =
      Some (mkRun nil_slice (Some link_header_error) Example.after_one
              (fs ++ [mkFetch "/v2/r/tags/list" (mk_slice ["a"]) ["malformed-value"] None])) /\
    length fs = 0 /\
    fetch_tags <$> fs = [].
Proof.
  assert (T : page (Example.makeRequest Example.malformed_link) Example.json_Decode
                [] "/v2/r/tags/list" ["a"] ["malformed-value"] Example.after_one)
    by (refine (page_served Example.malformed_link [] "/v2/r/tags/list"
                  Example.body_a ["malformed-value"] ["a"] _ _);
        vm_compute; reflexivity).
  assert (M : nextLinkRegexp.FindStringSubmatch "malformed-value" = None)
    by (vm_compute; reflexivity).
  split; [exact T|]. split; [exact M|].
  exact (GetRepositoryTags_malformed_link _ _ Example.url_Parse Example.tagsPath
           [] "r" [] _ _ _ _ _ _ 1 (pages_nil _ _ _ _ _) T M (le_n 1)).
Defined.

Lemma GetRepositoryTags_status_witness :
  Example.makeRequest (Example.second_page_status 404) Example.after_one "GET"
    "/v2/r/tags/list?next=2" =
    (Example.after_two, inl (mkResponse 404 ∅ Example.body_c)) /\
  (exists fs,
     Example.run (Example.second_page_status 404) 2 =
       Some (mkRun nil_slice (Some (invalid_status_code 404)) Example.after_two
               (fs ++ [mkFetch "/v2/r/tags/list?next=2" nil_slice []
                         (Some (invalid_status_code 404))])) /\
     length fs = 1 /\
     fetch_tags <$> fs = [mk_slice ["a"; "b"]]) /\
  (forall code, invalid_status_code code = invalid_status_code 404 -> code = 404%Z) /\
  (forall json_Decode',
     MakeRepositoryTagsRequest (Example.makeRequest (Example.second_page_status 404))
       json_Decode' Example.after_one "/v2/r/tags/list?next=2" =
     MakeRepositoryTagsRequest (Example.makeRequest (Example.second_page_status 404))
       Example.json_Decode Example.after_one "/v2/r/tags/list?next=2").
Proof.
  assert (P : pages (Example.makeRequest (Example.second_page_status 404))
                Example.json_Decode Example.url_Parse [] (Example.tagsPath "r")
                [["a"; "b"]] Example.after_one "/v2/r/tags/list?next=2")
    by (apply first_page_served; vm_compute; reflexivity).
  assert (M : Example.makeRequest (Example.second_page_status 404) Example.after_one
                "GET" "/v2/r/tags/list?next=2" =
              (Example.after_two, inl (mkResponse 404 ∅ Example.body_c)))
    by (vm_compute; reflexivity).
  assert (S : StatusCode (mkResponse 404 ∅ Example.body_c) <> StatusOK)
    by discriminate.
  split; [exact M|].
  exact (GetRepositoryTags_status _ _ _ Example.tagsPath [] "r" _ _ _ _ _ 2
           P M S (le_n 2)).
Defined.



Lemma empty_page_is_valid_witness :
  page (Example.makeRequest Example.empty_first_page) Example.json_Decode
    [] "/v2/r/tags/list" [] [Example.link_next_2] Example.after_one /\
  loop (Example.makeRequest Example.empty_first_page) Example.json_Decode
    Example.url_Parse 2 [] false "/v2/r/tags/list" (mk_slice ["z"]) [] =
  loop (Example.makeRequest Example.empty_first_page) Example.json_Decode
    Example.url_Parse 1 Example.after_one false "/v2/r/tags/list?next=2"
    (mk_slice ["z"])
    [mkFetch "/v2/r/tags/list" (mk_slice []) [Example.link_next_2] None] /\
  exists fs,
    Example.run Example.empty_first_page 2 =
      Some (mkRun (mk_slice ["c"]) None Example.after_two fs) /\
    length fs = 2.
Proof.
  assert (T : page (Example.makeRequest Example.empty_first_page) Example.json_Decode
                [] "/v2/r/tags/list" [] [Example.link_next_2] Example.after_one)
    by (refine (page_served Example.empty_first_page [] "/v2/r/tags/list"
                  Example.body_empty [Example.link_next_2] [] _ _);
        vm_compute; reflexivity).
  assert (T2 : page (Example.makeRequest Example.empty_first_page) Example.json_Decode
                 Example.after_one "/v2/r/tags/list?next=2" ["c"] [] Example.after_two)
    by (refine (page_served_no_link Example.empty_first_page Example.after_one
                  "/v2/r/tags/list?next=2" Example.body_c ["c"] _ _);
        vm_compute; reflexivity).
  assert (P : pages (Example.makeRequest Example.empty_first_page) Example.json_Decode
                Example.url_Parse [] (Example.tagsPath "r") ([] ++ [] :: [])
                Example.after_one "/v2/r/tags/list?next=2")
    by exact (pages_cons _ _ _ _ _ _ _ _ _ _ _ _ _ T link_next_2_points
                (pages_nil _ _ _ _ _)).
  split; [exact T|]. split.
  - exact (proj2 (proj1 (empty_page_is_valid (Example.makeRequest Example.empty_first_page)
                           Example.json_Decode Example.url_Parse Example.tagsPath)
                    _ _ _ _ T)
             _ _ _ eq_refl link_next_2_points 1 (mk_slice ["z"]) []).
  - exact (proj2 (empty_page_is_valid (Example.makeRequest Example.empty_first_page)
                    Example.json_Decode Example.url_Parse Example.tagsPath)
             [] "r" [] [] _ _ _ _ 2 P T2 (le_n 2)).
Defined.

Lemma MakeRepositoryTagsRequest_only_200_witness :
  Example.makeRequest (Example.second_page_status 204) Example.after_one "GET"
    "/v2/r/tags/list?next=2" =
    (Example.after_two, inl (mkResponse 204 ∅ Example.body_c)) /\
  MakeRepositoryTagsRequest (Example.makeRequest (Example.second_page_status 204))
    Example.json_Decode Example.after_one "/v2/r/tags/list?next=2" =
    (Example.after_two, (nil_slice, [], Some (invalid_status_code 204))).
Proof.
  assert (M : Example.makeRequest (Example.second_page_status 204) Example.after_one
                "GET" "/v2/r/tags/list?next=2" =
              (Example.after_two, inl (mkResponse 204 ∅ Example.body_c)))
    by (vm_compute; reflexivity).
  split; [exact M|].
  exact (proj2 (MakeRepositoryTagsRequest_only_200 _ Example.json_Decode _ _ _ _ M)
           (or_intror eq_refl)).
Defined.

(** * Further properties *)

(** ** The regular expression, once more *)

Lemma string_app_split (a b c d : string) :
  a +:+ b = c +:+ d ->
  String.length a <= String.length c ->
  exists e, c = a +:+ e /\ b = e +:+ d.
Proof.
  revert c. induction a as [|x a IH]; intros c E L.
  - exists c. by rewrite app_EmptyString in *.
  - destruct c as [|y c]; [simpl in L; lia|].
    rewrite !app_String in E. injection E as -> E.
    destruct (IH c E) as (e & -> & ->); [simpl in L; lia|].
    by exists e.
Qed.

Lemma string_app_length (a b : string) :
  String.length (a +:+ b) = String.length a + String.length b.
Proof.
  induction a as [|x a IH]; rewrite ?app_String, ?app_EmptyString; simpl; [done|].
  by rewrite IH.
Qed.

Lemma string_app_assoc (a b c : string) : (a +:+ b) +:+ c = a +:+ b +:+ c.
Proof.
  induction a as [|x a IH]; rewrite ?app_String, ?app_EmptyString; [done|].
  by rewrite IH.
Qed.

(** X1.  The expression matches exactly the values of the form [<u>;m]
    with [u] and [m] not empty and free of newlines.  A match has three
    elements, the value itself and the two groups, so that [match[1]] is
    within range; and the first group is the longest [u] there is. *)
Theorem nextLinkRegexp_matches (s : string) :
  (forall l,
     nextLinkRegexp.FindStringSubmatch s = Some l ->
     length l = 3 /\ index l 0 = s /\
     nextLinkRegexp.shape s (index l 1) (index l 2) /\
     forall u m, nextLinkRegexp.shape s u m ->
       String.length u <= String.length (index l 1)) /\
  (nextLinkRegexp.FindStringSubmatch s = None <->
   forall u m, ~ nextLinkRegexp.shape s u m).
Proof.
  split; [|apply FindStringSubmatch_None_iff].
  intros l F. destruct (FindStringSubmatch_Some _ _ F) as (u & m & -> & Sh & G).
  done.
Qed.

(** X2.  On a value [<u>;m] whose [m] holds no [>;] with a character after
    it (and where [u] and [m] are not empty and free of newlines), the
    first group is [u], the URL between the brackets, and the second is
    [m]. *)
Theorem nextLinkRegexp_single_link (u m : string) :
  u <> "" -> m <> "" ->
  nextLinkRegexp.dots u = true -> nextLinkRegexp.dots m = true ->
  (forall a b, m = a +:+ ">;" +:+ b -> b = "") ->
  nextLinkRegexp.FindStringSubmatch ("<" +:+ u +:+ ">;" +:+ m) =
    Some ["<" +:+ u +:+ ">;" +:+ m; u; m].
Proof.
  intros Nu Nm Du Dm Single.
  destruct (url_group_greedy u m Nu Nm Du Dm) as (u' & m' & G & L).
  destruct (url_group_sound _ _ _ G) as (E & _ & Nm' & _).
  destruct (string_app_split _ _ _ _ E L) as (e & -> & E').
  assert (e = "") as ->.
  { destruct e as [|c1 e]; [done|]. exfalso.
    rewrite !app_String, ?app_EmptyString in E'. injection E' as <- E'.
    destruct e as [|c2 e].
    - rewrite app_EmptyString in E'. discriminate E'.
    - rewrite app_String in E'. injection E' as <- E'.
      exact (Nm' (Single e m' E')). }
  rewrite app_EmptyString in E'. apply (String.app_inj ">;") in E'. subst m'.
  unfold nextLinkRegexp.FindStringSubmatch. rewrite app_String, app_EmptyString.
  rewrite G. do 3 f_equal.
  clear. induction u as [|c u IH]; [done|]. by rewrite app_String, IH.
Qed.

Lemma rel_next_single (a b : string) :
  Scenario.rel_next = a +:+ ">;" +:+ b -> b = "".
Proof.
  unfold Scenario.rel_next, Example.quoted, Example.dquote.
  rewrite !app_String, !app_EmptyString. intros E.
  repeat (destruct a as [|? a];
          [rewrite ?app_EmptyString in E; discriminate E
          |rewrite app_String in E;
           first [discriminate E | injection E as _ E]]).
Qed.

Lemma nextLinkRegexp_matches_witness :
  nextLinkRegexp.FindStringSubmatch Example.link_next_2 =
    Some [Example.link_next_2; "/v2/r/tags/list?next=2"; Scenario.rel_next] /\
  nextLinkRegexp.shape Example.link_next_2 "/v2/r/tags/list?next=2" Scenario.rel_next.
Proof.
  assert (F : nextLinkRegexp.FindStringSubmatch Example.link_next_2 =
              Some [Example.link_next_2; "/v2/r/tags/list?next=2"; Scenario.rel_next])
    by (vm_compute; reflexivity).
  split; [exact F|].
  exact (proj1 (proj2 (proj2 (proj1 (nextLinkRegexp_matches Example.link_next_2) _ F)))).
Defined.

Lemma nextLinkRegexp_single_link_witness :
  nextLinkRegexp.FindStringSubmatch
    ("<" +:+ "/v2/r/tags/list?next=2" +:+ ">;" +:+ Scenario.rel_next) =
    Some ["<" +:+ "/v2/r/tags/list?next=2" +:+ ">;" +:+ Scenario.rel_next;
          "/v2/r/tags/list?next=2"; Scenario.rel_next].
Proof.
  apply nextLinkRegexp_single_link.
  - discriminate.
  - discriminate.
  - vm_compute; reflexivity.
  - vm_compute; reflexivity.
  - exact rel_next_single.
Defined.

(** X9.  The first group is greedy: on a value [<u>;m] whose [m] holds a
    [>;] with a character after it, as when two links are put in one
    header value, the expression matches and the first group runs on past
    [u] to the last such [>;]; it is longer than the URL between the first
    pair of brackets. *)
Theorem nextLinkRegexp_greedy (s u a b : string) :
  nextLinkRegexp.shape s u (a +:+ ">;" +:+ b) ->
  b <> "" ->
  exists l,
    nextLinkRegexp.FindStringSubmatch s = Some l /\
    String.length u + 2 + String.length a <= String.length (index l 1) /\
    index l 1 <> u.
Proof.
  intros Sh Nb. destruct Sh as (E & Nu & _ & Du & Dm).
  rewrite !dots_app in Dm. apply andb_true_iff in Dm as [Da Db].
  simpl in Db.
  assert (Sh' : nextLinkRegexp.shape s (u +:+ ">;" +:+ a) b).
  { split; [by rewrite !string_app_assoc|]. split.
    - destruct u; [done|]. by rewrite app_String.
    - split; [done|]. split; [|done]. rewrite !dots_app, Du, Da. done. }
  destruct (nextLinkRegexp.FindStringSubmatch s) as [l|] eqn:F.
  - destruct (FindStringSubmatch_Some _ _ F) as (u0 & m0 & -> & _ & G).
    exists [s; u0; m0]. split; [done|].
    specialize (G _ _ Sh'). rewrite !string_app_length in G. simpl in G.
    change (index [s; u0; m0] 1) with u0.
    split; [lia|]. intros ->. lia.
  - by destruct (FindStringSubmatch_None _ F _ _ Sh').
Qed.

Lemma nextLinkRegexp_greedy_witness :
  nextLinkRegexp.shape "</list?n=1>; rel=next, </list?n=9>; rel=last"
    "/list?n=1" (" rel=next, </list?n=9" +:+ ">;" +:+ " rel=last") /\
  exists l,
    nextLinkRegexp.FindStringSubmatch
      "</list?n=1>; rel=next, </list?n=9>; rel=last" = Some l /\
    String.length "/list?n=1" + 2 + String.length " rel=next, </list?n=9"
      <= String.length (index l 1) /\
    index l 1 <> "/list?n=1".
Proof.
  assert (Sh : nextLinkRegexp.shape "</list?n=1>; rel=next, </list?n=9>; rel=last"
                 "/list?n=1" (" rel=next, </list?n=9" +:+ ">;" +:+ " rel=last"))
    by (repeat split; try discriminate; vm_compute; reflexivity).
  split; [exact Sh|].
  apply (nextLinkRegexp_greedy _ _ _ _ Sh). discriminate.
Defined.

(** ** The page fetch and the loop, read backwards *)

Lemma append_not_empty (s t : slice) :
  s <> mk_slice [] -> append s t <> mk_slice [].
Proof.
  intros N. unfold append. destruct (elems t) as [|x l]; [done|].
  intros [= E]. by destruct (elems s).
Qed.

Section More.

Context {World : Type}.
Variable makeRequest : World -> string -> string -> World * (Response + string).
Variable json_Decode : string -> slice + string.
Variable url_Parse : string -> URL + string.
Variable tagsPath : string -> string.

Abbreviation fetch := (MakeRepositoryTagsRequest makeRequest json_Decode).
Abbreviation iteration := (loop_body makeRequest json_Decode url_Parse).
Abbreviation go := (loop makeRequest json_Decode url_Parse).
Abbreviation list_tags := (GetRepositoryTags makeRequest json_Decode url_Parse tagsPath).
Abbreviation is_page := (page makeRequest json_Decode).
Abbreviation leads_to := (points_to url_Parse).
Abbreviation serves := (pages makeRequest json_Decode url_Parse).
Abbreviation failing := (fails makeRequest json_Decode url_Parse).

(** X3.  [MakeRepositoryTagsRequest] makes one request and returns a nil
    error exactly when the transport carried it out, the status is 200 and
    the body decodes; it then returns the decoded tags and the values under
    [Link] as they are.  With an error it returns nil tags and no header
    value, and the error is the transport's, the one made for the status
    code, or the decoder's. *)
Theorem MakeRepositoryTagsRequest_contract w path w' tags links err :
  fetch w path = (w', (tags, links, err)) ->
  w' = fst (makeRequest w "GET" path) /\
  (err = None <->
   exists res,
     makeRequest w "GET" path = (w', inl res) /\
     StatusCode res = StatusOK /\
     json_Decode (Body res) = inl tags /\
     links = Header_index (Header res) "Link") /\
  (forall e, err = Some e ->
     tags = nil_slice /\ links = [] /\
     ((exists t, makeRequest w "GET" path = (w', inr t) /\ e = makeRequest_error t) \/
      (exists res, makeRequest w "GET" path = (w', inl res) /\
         StatusCode res <> StatusOK /\ e = invalid_status_code (StatusCode res)) \/
      (exists res d, makeRequest w "GET" path = (w', inl res) /\
         StatusCode res = StatusOK /\ json_Decode (Body res) = inr d /\
         e = json_error d))).
Proof.
  unfold MakeRepositoryTagsRequest.
  destruct (makeRequest w "GET" path) as [w1 [res|t]] eqn:M; simpl.
  - destruct (StatusCode res =? StatusOK)%Z eqn:S; simpl.
    + apply Z.eqb_eq in S.
      destruct (json_Decode (Body res)) as [tg|d] eqn:D.
      * intros [= <- <- <- <-]. split; [done|]. split; [|done].
        split; [|done]. intros _. by exists res.
      * intros [= <- <- <- <-]. split; [done|]. split.
        -- split; [done|]. intros (res' & [= <-] & _ & D' & _). congruence.
        -- intros e [= <-]. split; [done|]. split; [done|].
           right. right. by exists res, d.
    + apply Z.eqb_neq in S. intros [= <- <- <- <-]. split; [done|]. split.
      * split; [done|]. intros (res' & [= <-] & S' & _). done.
      * intros e [= <-]. split; [done|]. split; [done|].
        right. left. by exists res.
  - intros [= <- <- <- <-]. split; [done|]. split.
    + split; [done|]. intros (res' & [=] & _).
    + intros e [= <-]. split; [done|]. split; [done|]. left. by exists t.
Qed.

(** A fetch that gave tags that are not nil was the fetch of a page. *)
Lemma fetch_page_inv w path w' tags links err :
  fetch w path = (w', (mk_slice tags, links, err)) ->
  is_page w path tags links w' /\ err = None.
Proof.
  intros F. unfold MakeRepositoryTagsRequest in F.
  destruct (makeRequest w "GET" path) as [w1 [res|t]] eqn:M; [|done].
  destruct (StatusCode res =? StatusOK)%Z eqn:S; simpl in F; [|done].
  apply Z.eqb_eq in S.
  destruct (json_Decode (Body res)) as [tg|d] eqn:D; [|done].
  injection F as -> -> <- <-. split; [|done]. by exists res.
Qed.

(** A fetch that gave nil tags met a body with nil tags, or failed. *)
Lemma fetch_nil_inv w path w' links err :
  fetch w path = (w', (nil_slice, links, err)) ->
  (err = None /\
   exists res, makeRequest w "GET" path = (w', inl res) /\
     StatusCode res = StatusOK /\ json_Decode (Body res) = inl nil_slice) \/
  (exists e, err = Some e /\ failing w path w' e).
Proof.
  intros F. unfold MakeRepositoryTagsRequest in F.
  destruct (makeRequest w "GET" path) as [w1 [res|t]] eqn:M.
  - destruct (StatusCode res =? StatusOK)%Z eqn:S; simpl in F.
    + apply Z.eqb_eq in S.
      destruct (json_Decode (Body res)) as [tg|d] eqn:D.
      * injection F as <- <- <- <-. left. split; [done|]. by exists res.
      * injection F as <- <- <-. right. eexists. split; [done|].
        by eapply fails_decode.
    + apply Z.eqb_neq in S. injection F as <- <- <-. right.
      eexists. split; [done|]. by apply fails_status.
  - injection F as <- <- <-. right. eexists. split; [done|].
    by apply fails_transport.
Qed.

(** How a finished loop came to its end. *)
Lemma loop_inversion fuel w path result r :
  go fuel w false path result [] = Some r ->
  exists ps w1 path1,
    serves w path ps w1 path1 /\
    length (ret_fetches r) = S (length ps) /\
    ((exists tags,
        is_page w1 path1 tags [] (ret_world r) /\
        ret_err r = None /\
        ret_tags r = append result (mk_slice (concat (ps ++ [tags])))) \/
     (exists res,
        makeRequest w1 "GET" path1 = (ret_world r, inl res) /\
        StatusCode res = StatusOK /\
        json_Decode (Body res) = inl nil_slice /\
        ret_err r = None /\ ret_tags r = nil_slice) \/
     (exists e,
        failing w1 path1 (ret_world r) e /\
        ret_err r = Some e /\ ret_tags r = nil_slice)).
Proof.
  revert w path result r.
  induction fuel as [|fuel IH]; intros w path result r; [done|].
  rewrite loop_step.
  destruct (iteration w path result) as [[w1 f] fl] eqn:I.
  destruct (iteration_inv _ _ _ tagsPath _ _ _ _ _ _ I)
    as (tags & links & err & F & -> & H).
  destruct fl as [t e|[] p1 r1].
  - intros [= <-]. exists [], w, path. split; [apply pages_nil|]. split; [done|].
    simpl. destruct H as [-> [[-> ->]|(Nt & -> & l & ls & -> & _ & He)]].
    + destruct (fetch_nil_inv _ _ _ _ _ F) as [[-> Hn]|(e & -> & Hf)].
      * right. left. destruct Hn as (res & ? & ? & ?). by exists res.
      * right. right. by exists e.
    + destruct tags as [|tg]; [done|].
      destruct (fetch_page_inv _ _ _ _ _ _ F) as [P _].
      right. right. destruct He as [[M ->]|(m & uerr & M & U & ->)].
      * eexists. split; [by eapply fails_link|done].
      * eexists. split; [by eapply fails_url|done].
  - rewrite loop_done. intros [= <-]. exists [], w, path.
    split; [apply pages_nil|]. split; [done|]. simpl.
    destruct H as (Nt & -> & -> & -> & _).
    destruct tags as [|tg]; [done|].
    destruct (fetch_page_inv _ _ _ _ _ _ F) as [P _].
    left. exists tg. by rewrite app_nil_r.
  - rewrite loop_log.
    destruct (go fuel w1 false p1 r1 []) as [r0|] eqn:G; [|done].
    simpl. intros [= <-]. simpl.
    destruct H as (Nt & -> & -> & l & ls & -> & T).
    destruct tags as [|tg]; [done|].
    destruct (fetch_page_inv _ _ _ _ _ _ F) as [P _].
    destruct (IH _ _ _ _ G) as (ps & w2 & p2 & Ps & L & E).
    exists (tg :: ps), w2, p2.
    split; [by eapply pages_cons|]. split; [simpl; lia|].
    destruct E as [(t & ? & ? & ->)|[?|?]]; [left|by right; left|by right; right].
    exists t. split; [done|]. split; [done|]. by rewrite append_append.
Qed.

(** X4.  A finished run has fetched a chain of pages, each pointing to the
    next, and then made one more fetch, which decided the outcome: a page
    without value under [Link], and the run returns the tags of all pages
    in order with a nil error; or a body that decodes with nil tags, and
    it returns nil, nil; or a failure, and it returns nil tags and the
    error of that failure.  The registry is left as that last fetch left
    it. *)
Theorem GetRepositoryTags_inversion fuel w name r :
  list_tags fuel w name = Some r ->
  exists ps w1 path1,
    serves w (tagsPath name) ps w1 path1 /\
    length (ret_fetches r) = S (length ps) /\
    ((exists tags,
        is_page w1 path1 tags [] (ret_world r) /\
        ret_err r = None /\
        ret_tags r = slice_of (concat (ps ++ [tags]))) \/
     (exists res,
        makeRequest w1 "GET" path1 = (ret_world r, inl res) /\
        StatusCode res = StatusOK /\
        json_Decode (Body res) = inl nil_slice /\
        ret_err r = None /\ ret_tags r = nil_slice) \/
     (exists e,
        failing w1 path1 (ret_world r) e /\
        ret_err r = Some e /\ ret_tags r = nil_slice)).
Proof.
  intros R. destruct (loop_inversion _ _ _ _ _ R) as (ps & w1 & p1 & P & L & E).
  exists ps, w1, p1. split; [done|]. split; [done|].
  by setoid_rewrite append_nil_slice in E.
Qed.

Lemma loop_not_empty fuel w done path result log r :
  result <> mk_slice [] ->
  go fuel w done path result log = Some r ->
  ret_tags r <> mk_slice [].
Proof.
  revert w done path result log.
  induction fuel as [|fuel IH]; intros w [] path result log N.
  - rewrite loop_done. by intros [= <-].
  - done.
  - rewrite loop_done. by intros [= <-].
  - rewrite loop_step.
    destruct (iteration w path result) as [[w1 f] fl] eqn:I.
    destruct (iteration_inv _ _ _ tagsPath _ _ _ _ _ _ I)
      as (tags & links & err & _ & _ & H).
    destruct fl as [t e|d p1 r1].
    + destruct H as [-> _]. by intros [= <-].
    + destruct H as (_ & _ & -> & _). apply IH. by apply append_not_empty.
Qed.

(** X5.  [GetRepositoryTags] never returns an empty slice that is not nil:
    the slice returned is nil or holds a tag, so it has length 0 only when
    it is nil (a run over pages that are all empty arrays returns nil). *)
Theorem GetRepositoryTags_never_empty fuel w name r :
  list_tags fuel w name = Some r ->
  ret_tags r <> mk_slice [] /\
  (len (ret_tags r) = 0 <-> ret_tags r = nil_slice).
Proof.
  intros R. assert (N : ret_tags r <> mk_slice [])
    by (eapply loop_not_empty; [|exact R]; discriminate).
  split; [done|]. split.
  - destruct (ret_tags r) as [|[|x l]]; done.
  - by intros ->.
Qed.

(** The last fetch of a finished loop and the error returned. *)
Lemma loop_last_error fuel w path result r :
  go fuel w false path result [] = Some r ->
  exists fs f,
    ret_fetches r = fs ++ [f] /\
    (forall e, fetch_err f = Some e -> ret_err r = Some e) /\
    (forall e, ret_err r = Some e ->
       fetch_err f = Some e \/
       (fetch_err f = None /\ fetch_tags f <> nil_slice /\
        (e = link_header_error \/ exists u, e = url_Error u))).
Proof.
  revert w path result r.
  induction fuel as [|fuel IH]; intros w path result r; [done|].
  rewrite loop_step.
  destruct (iteration w path result) as [[w1 f] fl] eqn:I.
  destruct (iteration_inv _ _ _ tagsPath _ _ _ _ _ _ I)
    as (tags & links & err & _ & -> & H).
  destruct fl as [t e|[] p1 r1].
  - intros [= <-]. exists [], (mkFetch path tags links err). simpl.
    split; [done|].
    destruct H as [-> [[-> ->]|(Nt & -> & l & ls & -> & _ & He)]].
    + split; [done|]. intros e ->. by left.
    + split; [done|]. intros e0 ->. right. split; [done|]. split; [done|].
      destruct He as [[_ [= ->]]|(m & uerr & _ & _ & [= ->])]; [by left|right; by exists uerr].
  - rewrite loop_done. intros [= <-]. exists [], (mkFetch path tags links err).
    destruct H as (_ & -> & _). simpl. done.
  - rewrite loop_log.
    destruct (go fuel w1 false p1 r1 []) as [r0|] eqn:G; [|done].
    simpl. intros [= <-]. simpl.
    destruct (IH _ _ _ _ G) as (fs & f0 & E & A & B).
    exists (mkFetch path tags links err :: fs), f0. by rewrite E.
Qed.

(** X6.  In a finished run a fetch that gave an error is the last one,
    and the run returns that very error with nil tags; and an error the
    run returns is the error of its last fetch or, when that fetch gave a
    page, the error made for its first [Link] value: "Could not parse link
    header ..." or the error of [url.Parse]. *)
Theorem fetch_error_returned fuel w name r :
  list_tags fuel w name = Some r ->
  (forall fs1 f fs2 e,
     ret_fetches r = fs1 ++ f :: fs2 -> fetch_err f = Some e ->
     fs2 = [] /\ ret_err r = Some e /\ ret_tags r = nil_slice) /\
  (forall e, ret_err r = Some e ->
     exists fs f,
       ret_fetches r = fs ++ [f] /\
       (fetch_err f = Some e \/
        (fetch_err f = None /\ fetch_tags f <> nil_slice /\
         (e = link_header_error \/ exists u, e = url_Error u)))).
Proof.
  intros R.
  destruct (loop_last_error _ _ _ _ _ R) as (fs & f0 & E & A & B).
  destruct (loop_trace _ _ _ tagsPath _ _ _ _ _ R) as (_ & _ & _ & _ & C & _ & _ & N).
  split.
  - intros fs1 f fs2 e E' Fe. destruct fs2 as [|f' fs2].
    + rewrite E in E'. apply app_inj_tail in E' as [_ ->].
      split; [done|]. split; [by apply A|]. apply N. by rewrite (A _ Fe).
    + destruct (chained_continued _ _ _ _ _ _ C E') as (_ & Ne & _). congruence.
  - intros e Re. exists fs, f0. split; [done|]. by apply B.
Qed.

(** A registry that always has a next page keeps the loop going. *)
Lemma loop_diverges (more : World -> string -> Prop) :
  (forall w path, more w path ->
     exists tags link links w' path',
       is_page w path tags (link :: links) w' /\
       leads_to link path' /\ more w' path') ->
  forall fuel w path result log,
    more w path -> go fuel w false path result log = None.
Proof.
  intros Step. induction fuel as [|fuel IH]; intros w path result log M; [done|].
  destruct (Step _ _ M) as (tags & link & links & w' & path' & P & T & M').
  rewrite loop_step.
  rewrite (iteration_next _ _ _ _ _ _ _ _ _ _ _ _ (fetch_page _ _ _ _ _ _ _ P) T).
  by apply IH.
Qed.

(** X7.  No bound is put on the number of pages: when the registry, in
    every state it can come to, answers the path asked for with a page
    whose first [Link] value is a valid continuation, [GetRepositoryTags]
    does not return, however many iterations it is given. *)
Theorem GetRepositoryTags_diverges (more : World -> string -> Prop) w name :
  (forall w path, more w path ->
     exists tags link links w' path',
       is_page w path tags (link :: links) w' /\
       leads_to link path' /\ more w' path') ->
  more w (tagsPath name) ->
  forall fuel, list_tags fuel w name = None.
Proof.
  intros Step M fuel. by apply (loop_diverges more).
Qed.

End More.

(** ** The requests made *)

Section Requests.

Context {World : Type}.
Variable makeRequest : World -> string -> string -> World * (Response + string).
Variable json_Decode : string -> slice + string.
Variable url_Parse : string -> URL + string.
Variable tagsPath : string -> string.

Lemma fetch_recording w q path :
  MakeRepositoryTagsRequest (recording makeRequest) json_Decode (w, q) path =
  let '(w', x) := MakeRepositoryTagsRequest makeRequest json_Decode w path in
  ((w', q ++ [("GET", path)]), x).
Proof.
  unfold MakeRepositoryTagsRequest, recording. simpl.
  destruct (makeRequest w "GET" path) as [w' [res|e]]; [|done].
  destruct (negb (StatusCode res =? StatusOK)%Z); [done|].
  by destruct (json_Decode (Body res)).
Qed.

Lemma iteration_recording w q path result :
  loop_body (recording makeRequest) json_Decode url_Parse (w, q) path result =
  let '(w', f, fl) := loop_body makeRequest json_Decode url_Parse w path result in
  ((w', q ++ [("GET", path)]), f, fl).
Proof.
  unfold loop_body. rewrite fetch_recording.
  destruct (MakeRepositoryTagsRequest makeRequest json_Decode w path)
    as [w' [[tags links] err]].
  destruct (is_nil tags); [done|].
  destruct links as [|link ls]; [done|].
  destruct (nextLinkRegexp.FindStringSubmatch link) as [m|]; [|done].
  by destruct (url_Parse (index m 1)).
Qed.

Lemma iteration_path w path result w' f fl :
  loop_body makeRequest json_Decode url_Parse w path result = (w', f, fl) ->
  fetch_path f = path.
Proof.
  unfold loop_body.
  destruct (MakeRepositoryTagsRequest makeRequest json_Decode w path)
    as [w1 [[tags links] err]].
  destruct (is_nil tags); [by intros [= _ <- _]|].
  destruct links as [|link ls]; [by intros [= _ <- _]|].
  destruct (nextLinkRegexp.FindStringSubmatch link) as [m|]; [|by intros [= _ <- _]].
  destruct (url_Parse (index m 1)); by intros [= _ <- _].
Qed.

Lemma loop_recording fuel w q done path result log :
  loop (recording makeRequest) json_Decode url_Parse fuel
    (w, q ++ requests_of log) done path result log =
  (fun r => mkRun (ret_tags r) (ret_err r)
              (ret_world r, q ++ requests_of (ret_fetches r)) (ret_fetches r))
    <$> loop makeRequest json_Decode url_Parse fuel w done path result log.
Proof.
  revert w done path result log.
  induction fuel as [|fuel IH]; intros w [] path result log.
  - by rewrite !loop_done.
  - done.
  - by rewrite !loop_done.
  - rewrite !loop_step, iteration_recording.
    destruct (loop_body makeRequest json_Decode url_Parse w path result)
      as [[w' f] fl] eqn:I.
    apply iteration_path in I.
    assert (E : (q ++ requests_of log) ++ [("GET", path)] =
                q ++ requests_of (log ++ [f])).
    { unfold requests_of. rewrite fmap_app, <- app_assoc. simpl. by rewrite I. }
    rewrite E. destruct fl as [t e|d p r]; [done|]. apply IH.
Qed.

(** X8.  Run over a transport that keeps a record of the requests it
    gets, [GetRepositoryTags] returns what it returns without the record
    and leaves the record longer by one [GET] request per fetch, at the
    paths of the fetches and in their order: it makes no other request.
    Every finished run has made at least one fetch, the first of them at
    the tag listing of the repository. *)
Theorem GetRepositoryTags_requests fuel w q name :
  GetRepositoryTags (recording makeRequest) json_Decode url_Parse tagsPath
    fuel (w, q) name =
  ((fun r => mkRun (ret_tags r) (ret_err r)
               (ret_world r, q ++ requests_of (ret_fetches r)) (ret_fetches r))
     <$> GetRepositoryTags makeRequest json_Decode url_Parse tagsPath fuel w name) /\
  (forall r,
     GetRepositoryTags makeRequest json_Decode url_Parse tagsPath fuel w name = Some r ->
     exists f fs, ret_fetches r = f :: fs /\ fetch_path f = tagsPath name).
Proof.
  split.
  - unfold GetRepositoryTags. rewrite <- loop_recording.
    unfold requests_of. simpl. by rewrite app_nil_r.
  - intros r R.
    destruct (loop_trace _ _ _ tagsPath _ _ _ _ _ R) as (fs & f & E & Hd & _).
    destruct (ret_fetches r) as [|f0 fs0]; [by destruct fs|].
    exists f0, fs0. split; [done|]. by injection Hd.
Qed.

End Requests.

(** ** The further theorems on the example registry *)

Lemma MakeRepositoryTagsRequest_contract_witness :
  MakeRepositoryTagsRequest (Example.makeRequest Scenario.second_page_unreachable)
    Example.json_Decode Example.after_one "/v2/r/tags/list?next=2" =
    (Example.after_two,
     (nil_slice, [], Some (makeRequest_error "connection refused"))) /\
  Example.after_two =
    fst (Example.makeRequest Scenario.second_page_unreachable Example.after_one
           "GET" "/v2/r/tags/list?next=2").
Proof.
  assert (F : MakeRepositoryTagsRequest
                (Example.makeRequest Scenario.second_page_unreachable)
                Example.json_Decode Example.after_one "/v2/r/tags/list?next=2" =
              (Example.after_two,
               (nil_slice, [], Some (makeRequest_error "connection refused"))))
    by (vm_compute; reflexivity).
  split; [exact F|].
  exact (proj1 (MakeRepositoryTagsRequest_contract _ _ _ _ _ _ _ _ F)).
Defined.

Lemma GetRepositoryTags_inversion_witness :
  Example.run Example.two_pages 2 = Some Example.two_pages_run /\
  exists ps w1 path1,
    pages (Example.makeRequest Example.two_pages) Example.json_Decode
      Example.url_Parse [] (Example.tagsPath "r") ps w1 path1 /\
    length (ret_fetches Example.two_pages_run) = S (length ps).
Proof.
  assert (R : Example.run Example.two_pages 2 = Some Example.two_pages_run)
    by (vm_compute; reflexivity).
  split; [exact R|].
  destruct (GetRepositoryTags_inversion _ _ _ Example.tagsPath 2 [] "r" _ R)
    as (ps & w1 & path1 & P & L & _).
  exists ps, w1, path1. split; [exact P | exact L].
Defined.

Lemma GetRepositoryTags_never_empty_witness :
  Example.run Scenario.only_empty_page 1 =
    Some (mkRun nil_slice None Example.after_one
            [mkFetch "/v2/r/tags/list" (mk_slice []) [] None]) /\
  nil_slice <> mk_slice [].
Proof.
  assert (R : Example.run Scenario.only_empty_page 1 =
              Some (mkRun nil_slice None Example.after_one
                      [mkFetch "/v2/r/tags/list" (mk_slice []) [] None]))
    by (vm_compute; reflexivity).
  split; [exact R|].
  exact (proj1 (GetRepositoryTags_never_empty _ _ _ Example.tagsPath 1 [] "r" _ R)).
Defined.

Lemma fetch_error_returned_witness :
  Example.run Scenario.second_page_unreachable 2 =
    Some (mkRun nil_slice (Some (makeRequest_error "connection refused"))
            Example.after_two
            [Example.first_fetch;
             mkFetch "/v2/r/tags/list?next=2" nil_slice []
               (Some (makeRequest_error "connection refused"))]) /\
  ([] : list Fetch) = [] /\
  Some (makeRequest_error "connection refused") =
    Some (makeRequest_error "connection refused") /\
  nil_slice = nil_slice.
Proof.
  assert (R : Example.run Scenario.second_page_unreachable 2 =
              Some (mkRun nil_slice (Some (makeRequest_error "connection refused"))
                      Example.after_two
                      [Example.first_fetch;
                       mkFetch "/v2/r/tags/list?next=2" nil_slice []
                         (Some (makeRequest_error "connection refused"))]))
    by (vm_compute; reflexivity).
  split; [exact R|].
  exact (proj1 (fetch_error_returned _ _ _ Example.tagsPath 2 [] "r" _ R)
           [Example.first_fetch]
           (mkFetch "/v2/r/tags/list?next=2" nil_slice []
              (Some (makeRequest_error "connection refused")))
           [] (makeRequest_error "connection refused") eq_refl eq_refl).
Defined.

Lemma cycle_has_more (w : Example.World) (path : string) :
  path = "/v2/r/tags/list" \/ path = "/v2/r/tags/list?next=2" ->
  exists tags link links w' path',
    page (Example.makeRequest Scenario.cycle) Example.json_Decode
      w path tags (link :: links) w' /\
    points_to Example.url_Parse link path' /\
    (path' = "/v2/r/tags/list" \/ path' = "/v2/r/tags/list?next=2").
Proof.
  intros [-> | ->].
  - exists ["a"; "b"], Example.link_next_2, [], (w ++ [("GET", "/v2/r/tags/list")]),
      "/v2/r/tags/list?next=2".
    split; [|split; [apply link_next_2_points|by right]].
    refine (page_served Scenario.cycle w "/v2/r/tags/list" Example.body_a_b
              [Example.link_next_2] ["a"; "b"] _ _); vm_compute; reflexivity.
  - exists ["c"], Example.link_next_2, [],
      (w ++ [("GET", "/v2/r/tags/list?next=2")]), "/v2/r/tags/list?next=2".
    split; [|split; [apply link_next_2_points|by right]].
    refine (page_served Scenario.cycle w "/v2/r/tags/list?next=2" Example.body_c
              [Example.link_next_2] ["c"] _ _); vm_compute; reflexivity.
Qed.

Lemma GetRepositoryTags_diverges_witness :
  Example.run Scenario.cycle 40 = None.
Proof.
  exact (GetRepositoryTags_diverges (Example.makeRequest Scenario.cycle)
           Example.json_Decode Example.url_Parse Example.tagsPath
           (fun _ path => path = "/v2/r/tags/list" \/ path = "/v2/r/tags/list?next=2")
           [] "r" cycle_has_more (or_introl eq_refl) 40).
Defined.

Lemma GetRepositoryTags_requests_witness :
  GetRepositoryTags (recording (Example.makeRequest Example.two_pages))
    Example.json_Decode Example.url_Parse Example.tagsPath 2
    ([], [("HEAD", "/v2/")]) "r" =
  Some (mkRun (mk_slice ["a"; "b"; "c"]) None
          (Example.after_two,
           [("HEAD", "/v2/"); ("GET", "/v2/r/tags/list");
            ("GET", "/v2/r/tags/list?next=2")])
          (ret_fetches Example.two_pages_run)).
Proof.
  refine (eq_trans
            (proj1 (GetRepositoryTags_requests (Example.makeRequest Example.two_pages)
                      Example.json_Decode Example.url_Parse Example.tagsPath
                      2 [] [("HEAD", "/v2/")] "r")) _).
  vm_compute. reflexivity.
Defined.
